(** * Cluster metadata manager of gocql ([cluster_metadata.go])

    A shallow embedding of [ClusterMetadata] and [clusterMetadataManager].
    Snapshots are Go structs reached through pointers and their [replicas]
    field is a Go map, so both live in an explicit store: a snapshot is a
    cell of [structs], a map object a cell of [maps], and a shallow copy
    shares the map object of the original.  Every operation is a
    computation in a state monad over that store with three outcomes:
    normal return, panic (the deferred unlock has run), or blocking on the
    mutex. *)

From stdpp Require Import base option list strings gmap fin_maps.

(** ** Hosts and the copy-on-write host list *)

(** Go's [error] values are represented by their [Error()] text. *)
Definition error : Type := string.

(** The connect address of a host ([net.IP]), in its textual form. *)
Definition IP : Type := string.

(** Modelled from the spec: [HostInfo] is declared outside this file; the
    spec's HostDescriptor has the connect address as its identity and a
    token ownership list. *)
Record HostInfo : Type := mkHostInfo {
  connectAddress : IP;
  hostTokens : list string
}.

Definition ConnectAddress (h : HostInfo) : IP := connectAddress h.

Module cowHostList.

(** Modelled from the spec: the type [cowHostList] and its methods are
    declared outside this file.  The spec's HostRegistry is an ordered set
    of hosts, unique by connect address, whose [add] and [remove] return
    whether membership changed and whose [get] returns the current
    sequence. *)
Definition t : Type := list HostInfo.

Definition empty : t := [].

Definition get (l : t) : list HostInfo := l.

Definition known (a : IP) (l : t) : bool :=
  existsb (λ h, String.eqb (ConnectAddress h) a) l.

Definition add (h : HostInfo) (l : t) : t * bool :=
  if known (ConnectAddress h) l then (l, false) else (l ++ [h], true).

Definition remove (a : IP) (l : t) : t * bool :=
  if known a l
  then (List.filter (λ h, negb (String.eqb (ConnectAddress h) a)) l, true)
  else (l, false).

End cowHostList.

(** ** The [atomic.Value] slot *)

Module atomicValue.

(** An [atomic.Value] holding values of type [A].  The cell keeps the
    values stored so far, most recent first: [Load] reads the head, and
    the length of the list counts the calls of [Store]. *)
Definition t (A : Type) : Type := list A.

Definition zero {A : Type} : t A := [].

Definition Load {A : Type} (v : t A) : option A := head v.

Definition Store {A : Type} (x : A) (v : t A) : t A := x :: v.

End atomicValue.

(** ** Loggers, sessions, panics *)

Inductive StdLogger : Type := Logger (name : string).

Record Session : Type := mkSession {
  session_id : nat;
  session_logger : StdLogger
}.

Inductive panicValue : Type :=
| NilFuncCall (field : string)       (* call of a nil func value *)
| NilInterfaceCall (field : string)  (* method call on a nil interface *)
| InvalidAddress                     (* dereference outside the store *)
| PanicString (msg : string).        (* an explicit [panic(msg)] *)

Definition initPanicMessage : string :=
  "sharing token aware host selection policy between sessions is not supported".

(** Pointers to snapshot objects and references to map objects are
    positions in the store. *)
Abbreviation ptr := nat (only parsing).
Abbreviation mapref := nat (only parsing).

Section Manager.

(** The ring, the per-keyspace replica table and the keyspace schema are
    declared outside this file; nothing here looks inside them. *)
Context {TokenRing tokenRingReplicas KeyspaceMetadata : Type}.

(** A placement strategy is an interface with the single method
    [replicaMap]. *)
Definition placementStrategy : Type := TokenRing → tokenRingReplicas.

Record ClusterMetadata : Type := mkClusterMetadata {
  replicas : option mapref;       (* nil, or a reference to a map object *)
  tokenRing : option TokenRing    (* nil, or the ring pointed to *)
}.

Definition zeroClusterMetadata : ClusterMetadata :=
  {| replicas := None; tokenRing := None |}.

(** [m.TokenRing()] *)
Definition TokenRing_of (m : ClusterMetadata) : option TokenRing :=
  tokenRing m.

(** The collaborators the manager calls out to.  A session's keyspace
    schema and configured keyspace can change between two calls, so they
    are read from the environment of each call.  A Go result pair
    [(value, err)] is a sum: [inl value] when [err == nil], [inr err]
    otherwise. *)
Record Env : Type := mkEnv {
  Session_KeyspaceMetadata : Session → string → KeyspaceMetadata + error;
  Session_cfg_Keyspace : Session → string;
  newTokenRing : string → list HostInfo → TokenRing + error;
  (* the strategy returned, and the lines it prints to the logger *)
  getStrategy : KeyspaceMetadata → option placementStrategy * list string
}.

(** The two func fields are set only by [init], to a method value and a
    closure of the session: each is nil or determined by that session. *)
Record clusterMetadataManager : Type := mkManager {
  getKeyspaceMetadata : option Session;
  getKeyspaceName : option Session;
  mu : bool;                           (* true while the mutex is held *)
  hosts : cowHostList.t;
  partitioner : string;
  metadata : atomicValue.t ptr;
  logger : option StdLogger
}.

Definition zeroManager : clusterMetadataManager :=
  {| getKeyspaceMetadata := None; getKeyspaceName := None; mu := false;
     hosts := cowHostList.empty; partitioner := "";
     metadata := atomicValue.zero; logger := None |}.

Record world : Type := mkWorld {
  mgr : clusterMetadataManager;
  structs : list ClusterMetadata;                  (* snapshot objects *)
  maps : list (gmap string tokenRingReplicas);     (* map objects *)
  printed : list (StdLogger * string)              (* logger output *)
}.

Definition freshWorld : world :=
  {| mgr := zeroManager; structs := []; maps := []; printed := [] |}.

(** *** Field updates *)

Definition with_mgr (f : clusterMetadataManager → clusterMetadataManager)
    (w : world) : world :=
  {| mgr := f (mgr w); structs := structs w; maps := maps w;
     printed := printed w |}.

Definition with_structs (s : list ClusterMetadata) (w : world) : world :=
  {| mgr := mgr w; structs := s; maps := maps w; printed := printed w |}.

Definition with_maps (s : list (gmap string tokenRingReplicas))
    (w : world) : world :=
  {| mgr := mgr w; structs := structs w; maps := s; printed := printed w |}.

Definition with_printed (s : list (StdLogger * string)) (w : world) : world :=
  {| mgr := mgr w; structs := structs w; maps := maps w; printed := s |}.

Definition set_mu (b : bool) (m : clusterMetadataManager) :=
  {| getKeyspaceMetadata := getKeyspaceMetadata m;
     getKeyspaceName := getKeyspaceName m; mu := b; hosts := hosts m;
     partitioner := partitioner m; metadata := metadata m;
     logger := logger m |}.

Definition set_hosts (h : cowHostList.t) (m : clusterMetadataManager) :=
  {| getKeyspaceMetadata := getKeyspaceMetadata m;
     getKeyspaceName := getKeyspaceName m; mu := mu m; hosts := h;
     partitioner := partitioner m; metadata := metadata m;
     logger := logger m |}.

Definition set_partitioner (p : string) (m : clusterMetadataManager) :=
  {| getKeyspaceMetadata := getKeyspaceMetadata m;
     getKeyspaceName := getKeyspaceName m; mu := mu m; hosts := hosts m;
     partitioner := p; metadata := metadata m; logger := logger m |}.

Definition set_metadata (v : atomicValue.t ptr) (m : clusterMetadataManager) :=
  {| getKeyspaceMetadata := getKeyspaceMetadata m;
     getKeyspaceName := getKeyspaceName m; mu := mu m; hosts := hosts m;
     partitioner := partitioner m; metadata := v; logger := logger m |}.

Definition bind_session (s : Session) (m : clusterMetadataManager) :=
  {| getKeyspaceMetadata := Some s; getKeyspaceName := Some s; mu := mu m;
     hosts := hosts m; partitioner := partitioner m;
     metadata := metadata m; logger := Some (session_logger s) |}.

Definition set_replicas (r : option mapref) (c : ClusterMetadata) :=
  {| replicas := r; tokenRing := tokenRing c |}.

Definition set_tokenRing (r : option TokenRing) (c : ClusterMetadata) :=
  {| replicas := replicas c; tokenRing := r |}.

(** *** The monad *)

Inductive result (A : Type) : Type :=
| Ret (a : A) (w : world)
| Panic (p : panicValue) (w : world)
| Blocked.
Arguments Ret {A} a w.
Arguments Panic {A} p w.
Arguments Blocked {A}.

Definition M (A : Type) : Type := world → result A.

Definition ret {A} (a : A) : M A := λ w, Ret a w.

Definition bind {A B} (c : M A) (k : A → M B) : M B :=
  λ w, match c w with
       | Ret a w' => k a w'
       | Panic p w' => Panic p w'
       | Blocked => Blocked
       end.

Definition panic {A} (p : panicValue) : M A := λ w, Panic p w.

#[local] Instance M_ret : MRet M := @ret.
#[local] Instance M_bind : MBind M := λ A B k c, bind c k.

Definition this : M clusterMetadataManager := λ w, Ret (mgr w) w.

Definition update (f : clusterMetadataManager → clusterMetadataManager)
  : M unit := λ w, Ret tt (with_mgr f w).

(** [m.mu.Lock()]: a second [Lock] on a held [sync.Mutex] never returns. *)
Definition Lock : M unit :=
  λ w, if mu (mgr w) then Blocked else Ret tt (with_mgr (set_mu true) w).

Definition Unlock (w : world) : world := with_mgr (set_mu false) w.

(** [defer d]: [d] runs when the body returns and when it panics. *)
Definition defer {A} (d : world → world) (body : M A) : M A :=
  λ w, match body w with
       | Ret a w' => Ret a (d w')
       | Panic p w' => Panic p (d w')
       | Blocked => Blocked
       end.

Definition locked {A} (body : M A) : M A := Lock;; defer Unlock body.

(** *** The store *)

(** [new(ClusterMetadata)] *)
Definition new_ClusterMetadata : M ptr :=
  λ w, Ret (length (structs w))
           (with_structs (structs w ++ [zeroClusterMetadata]) w).

(** [*p] *)
Definition deref (p : ptr) : M ClusterMetadata :=
  λ w, match structs w !! p with
       | Some c => Ret c w
       | None => Panic InvalidAddress w
       end.

(** [*p = c], and the field assignments [p.f = x] built on it *)
Definition assign (p : ptr) (c : ClusterMetadata) : M unit :=
  λ w, match structs w !! p with
       | Some _ => Ret tt (with_structs (<[p := c]> (structs w)) w)
       | None => Panic InvalidAddress w
       end.

(** [make(map[string]tokenRingReplicas, n)] *)
Definition make_map : M mapref :=
  λ w, Ret (length (maps w)) (with_maps (maps w ++ [∅]) w).

(** The contents of a map value; a nil map reads as empty. *)
Definition map_contents (r : option mapref)
  : M (gmap string tokenRingReplicas) :=
  λ w, match r with
       | None => Ret ∅ w
       | Some i => match maps w !! i with
                   | Some g => Ret g w
                   | None => Panic InvalidAddress w
                   end
       end.

(** [r[k] = v] *)
Definition map_assign (r : mapref) (k : string) (v : tokenRingReplicas)
  : M unit :=
  λ w, match maps w !! r with
       | Some g => Ret tt (with_maps (<[r := <[k := v]> g]> (maps w)) w)
       | None => Panic InvalidAddress w
       end.

(** [for k, v := range r { body }] *)
Fixpoint range_over (l : list (string * tokenRingReplicas))
    (body : string → tokenRingReplicas → M unit) : M unit :=
  match l with
  | [] => ret tt
  | (k, v) :: l' => body k v;; range_over l' body
  end.

(** [lg.Printf(...)] with the formatted line *)
Definition Printf (lg : option StdLogger) (line : string) : M unit :=
  match lg with
  | None => panic (NilInterfaceCall "logger")
  | Some l => λ w, Ret tt (with_printed (printed w ++ [(l, line)]) w)
  end.

Fixpoint print_lines (lg : option StdLogger) (lines : list string) : M unit :=
  match lines with
  | [] => ret tt
  | x :: xs => Printf lg x;; print_lines lg xs
  end.

(** ** [ClusterMetadata.resetTokenRing] *)

Definition ringErrorLine (err : error) : string :=
  ("Unable to update the token ring due to error: " ++ err)%string.

Definition resetTokenRing (E : Env) (m : ptr) (partitioner : string)
    (hosts : list HostInfo) (logger : option StdLogger) : M unit :=
  if String.eqb partitioner "" then ret tt
  else match newTokenRing E partitioner hosts with
       | inr err => Printf logger (ringErrorLine err)
       | inl tokenRing =>
           c ← deref m; assign m (set_tokenRing (Some tokenRing) c)
       end.

(** ** [clusterMetadataManager] *)

(** [init] *)
Definition init (s : Session) : M unit :=
  locked (
    m ← this;
    match getKeyspaceMetadata m with
    | Some _ => panic (PanicString initPanicMessage)
    | None => update (bind_session s)
    end).

(** [getMetadataReadOnly]: a pure read of the slot; the mutex is not
    consulted. *)
Definition getMetadataReadOnly (m : clusterMetadataManager) : option ptr :=
  atomicValue.Load (metadata m).

(** [getMetadataForUpdate] *)
Definition getMetadataForUpdate : M ptr :=
  m ← this;
  let metaReadOnly := getMetadataReadOnly m in
  meta ← new_ClusterMetadata;
  match metaReadOnly with
  | Some p => c ← deref p; assign meta c
  | None => ret tt
  end;;
  ret meta.

(** [m.getKeyspaceMetadata(keyspace)] *)
Definition call_getKeyspaceMetadata (E : Env) (keyspace : string)
  : M (KeyspaceMetadata + error) :=
  m ← this;
  match getKeyspaceMetadata m with
  | None => panic (NilFuncCall "getKeyspaceMetadata")
  | Some s => ret (Session_KeyspaceMetadata E s keyspace)
  end.

(** [m.getKeyspaceName()] *)
Definition call_getKeyspaceName (E : Env) : M string :=
  m ← this;
  match getKeyspaceName m with
  | None => panic (NilFuncCall "getKeyspaceName")
  | Some s => ret (Session_cfg_Keyspace E s)
  end.

(** [getStrategy(ks, m.logger)] *)
Definition call_getStrategy (E : Env) (ks : KeyspaceMetadata)
  : M (option placementStrategy) :=
  m ← this;
  print_lines (logger m) (getStrategy E ks).2;;
  ret (getStrategy E ks).1.

(** [updateReplicas] *)
Definition updateReplicas (E : Env) (meta : ptr) (keyspace : string)
  : M unit :=
  _ ← deref meta;                     (* len(meta.replicas) *)
  newReplicas ← make_map;
  r ← call_getKeyspaceMetadata E keyspace;
  match r with
  | inl ks =>
      strat ← call_getStrategy E ks;
      match strat with
      | Some replicaMap =>
          c ← deref meta;
          match tokenRing c with
          | Some ring => map_assign newReplicas keyspace (replicaMap ring)
          | None => ret tt
          end
      | None => ret tt
      end
  | inr _ => ret tt
  end;;
  c ← deref meta;
  old ← map_contents (replicas c);
  range_over (map_to_list old) (λ ks replicas,
    if bool_decide (ks ≠ keyspace)
    then map_assign newReplicas ks replicas
    else ret tt);;
  c ← deref meta;
  assign meta (set_replicas (Some newReplicas) c).

(** [m.metadata.Store(meta)] *)
Definition Store (meta : ptr) : M unit :=
  update (λ m, set_metadata (atomicValue.Store meta (metadata m)) m).

(** [keyspaceChanged]; the event carries the keyspace name. *)
Definition keyspaceChanged (E : Env) (update_Keyspace : string) : M unit :=
  locked (
    meta ← getMetadataForUpdate;
    updateReplicas E meta update_Keyspace;;
    Store meta).

(** [setPartitioner] *)
Definition setPartitioner (E : Env) (partitioner' : string) : M unit :=
  locked (
    m ← this;
    if bool_decide (partitioner m ≠ partitioner') then
      update (set_partitioner partitioner');;
      meta ← getMetadataForUpdate;
      m ← this;
      resetTokenRing E meta (partitioner m) (cowHostList.get (hosts m))
        (logger m);;
      keyspace ← call_getKeyspaceName E;
      updateReplicas E meta keyspace;;
      Store meta
    else ret tt).

(** [m.hosts.add(host)] *)
Definition hosts_add (host : HostInfo) : M bool :=
  m ← this;
  let '(l, changed) := cowHostList.add host (hosts m) in
  update (set_hosts l);;
  ret changed.

(** [m.hosts.remove(addr)] *)
Definition hosts_remove (addr : IP) : M bool :=
  m ← this;
  let '(l, changed) := cowHostList.remove addr (hosts m) in
  update (set_hosts l);;
  ret changed.

(** [addHost] *)
Definition addHost (E : Env) (host : HostInfo) : M unit :=
  locked (
    changed ← hosts_add host;
    if changed : bool then
      meta ← getMetadataForUpdate;
      m ← this;
      resetTokenRing E meta (partitioner m) (cowHostList.get (hosts m))
        (logger m);;
      keyspace ← call_getKeyspaceName E;
      updateReplicas E meta keyspace;;
      Store meta
    else ret tt).

(** [for _, host := range hosts { m.hosts.add(host) }] *)
Fixpoint add_each (l : list HostInfo) : M unit :=
  match l with
  | [] => ret tt
  | host :: l' => hosts_add host;; add_each l'
  end.

(** [addHosts] *)
Definition addHosts (E : Env) (hosts' : list HostInfo) : M unit :=
  locked (
    add_each hosts';;
    meta ← getMetadataForUpdate;
    m ← this;
    resetTokenRing E meta (partitioner m) (cowHostList.get (hosts m))
      (logger m);;
    keyspace ← call_getKeyspaceName E;
    updateReplicas E meta keyspace;;
    Store meta).

(** [removeHost] *)
Definition removeHost (E : Env) (host : HostInfo) : M unit :=
  locked (
    changed ← hosts_remove (ConnectAddress host);
    if changed : bool then
      meta ← getMetadataForUpdate;
      m ← this;
      resetTokenRing E meta (partitioner m) (cowHostList.get (hosts m))
        (logger m);;
      keyspace ← call_getKeyspaceName E;
      updateReplicas E meta keyspace;;
      Store meta
    else ret tt).

(** ** Operations and call sequences *)

Inductive op : Type :=
| Init (s : Session)
| KeyspaceChanged (keyspace : string)
| SetPartitioner (partitioner : string)
| AddHost (host : HostInfo)
| AddHosts (hosts : list HostInfo)
| RemoveHost (host : HostInfo).

Definition run (E : Env) (o : op) : M unit :=
  match o with
  | Init s => init s
  | KeyspaceChanged ks => keyspaceChanged E ks
  | SetPartitioner p => setPartitioner E p
  | AddHost h => addHost E h
  | AddHosts hs => addHosts E hs
  | RemoveHost h => removeHost E h
  end.

(** The world a call leaves behind; a panic is survivable (the deferred
    unlock has run), a blocked call never changes anything. *)
Definition after {A} (r : result A) (w : world) : world :=
  match r with
  | Ret _ w' => w'
  | Panic _ w' => w'
  | Blocked => w
  end.

Fixpoint exec (t : list (Env * op)) (w : world) : world :=
  match t with
  | [] => w
  | (E, o) :: t' => exec t' (after (run E o w) w)
  end.

(** What a reader holding the pointer [p] sees through it: the ring and
    the contents of the replica map. *)
Definition snapshot (w : world) (p : ptr)
  : option (option TokenRing * gmap string tokenRingReplicas) :=
  c ← structs w !! p;
  g ← match replicas c with
      | None => Some ∅
      | Some r => maps w !! r
      end;
  Some (tokenRing c, g).

(** The snapshot a reader gets from [getMetadataReadOnly]. *)
Definition published (w : world)
  : option (option TokenRing * gmap string tokenRingReplicas) :=
  p ← getMetadataReadOnly (mgr w); snapshot w p.

(** The number of [Store] calls so far. *)
Definition publishes (w : world) : nat := length (metadata (mgr w)).

(** ** Well-formed worlds *)

Definition initialized (m : clusterMetadataManager) : Prop :=
  is_Some (getKeyspaceMetadata m) ∧ is_Some (getKeyspaceName m)
  ∧ is_Some (logger m).

Definition uninitialized (m : clusterMetadataManager) : Prop :=
  getKeyspaceMetadata m = None ∧ getKeyspaceName m = None
  ∧ logger m = None.

(** No dangling references, and the mutex is free between calls. *)
Record wf (w : world) : Prop := mkWf {
  wf_mu : mu (mgr w) = false;
  wf_published : ∀ p, p ∈ metadata (mgr w) → p < length (structs w);
  wf_replicas : ∀ c r, c ∈ structs w → replicas c = Some r →
                       r < length (maps w)
}.

(** ** Closed forms of the results *)

Definition current (w : world) : option ClusterMetadata :=
  match getMetadataReadOnly (mgr w) with
  | Some p => structs w !! p
  | None => Some zeroClusterMetadata
  end.

(** The ring a working copy carries after [resetTokenRing]. *)
Definition ring_after (E : Env) (partitioner : string)
    (hosts : list HostInfo) (old : option TokenRing) : option TokenRing :=
  if String.eqb partitioner "" then old
  else match newTokenRing E partitioner hosts with
       | inl ring => Some ring
       | inr _ => old
       end.

(** The line [resetTokenRing] prints, if any. *)
Definition ring_log (E : Env) (partitioner : string)
    (hosts : list HostInfo) : list string :=
  if String.eqb partitioner "" then []
  else match newTokenRing E partitioner hosts with
       | inl _ => []
       | inr err => [ringErrorLine err]
       end.

(** The effect of the [range] loop of [updateReplicas] on the new map. *)
Definition carry_over (keyspace : string)
    (l : list (string * tokenRingReplicas))
    (g : gmap string tokenRingReplicas) : gmap string tokenRingReplicas :=
  foldl (λ acc kv, if bool_decide (kv.1 ≠ keyspace)
                   then <[kv.1 := kv.2]> acc else acc) g l.

(** The entry [updateReplicas] computes for its target keyspace. *)
Definition target_entry (E : Env) (s : Session) (keyspace : string)
    (ring : option TokenRing) : option tokenRingReplicas :=
  match Session_KeyspaceMetadata E s keyspace with
  | inl ks => match (getStrategy E ks).1 with
              | Some replicaMap => replicaMap <$> ring
              | None => None
              end
  | inr _ => None
  end.

(** The lines [getStrategy] prints during [updateReplicas]. *)
Definition strategy_log (E : Env) (s : Session) (keyspace : string)
  : list string :=
  match Session_KeyspaceMetadata E s keyspace with
  | inl ks => (getStrategy E ks).2
  | inr _ => []
  end.

(** The contents of the map [updateReplicas] builds. *)
Definition new_replicas (E : Env) (s : Session) (keyspace : string)
    (ring : option TokenRing) (old : gmap string tokenRingReplicas)
  : gmap string tokenRingReplicas :=
  carry_over keyspace (map_to_list old)
    match target_entry E s keyspace ring with
    | Some v => <[keyspace := v]> ∅
    | None => ∅
    end.

(** The contents of the map a [replicas] field refers to. *)
Definition map_of (w : world) (r : option mapref)
  : option (gmap string tokenRingReplicas) :=
  match r with
  | None => Some ∅
  | Some i => maps w !! i
  end.

(** The block shared by [setPartitioner], [addHost], [addHosts] and
    [removeHost]: copy, rebuild the ring, recompute the replicas of the
    active keyspace, publish. *)
Definition rebuild (E : Env) : M unit :=
  meta ← getMetadataForUpdate;
  m ← this;
  resetTokenRing E meta (partitioner m) (cowHostList.get (hosts m))
    (logger m);;
  keyspace ← call_getKeyspaceName E;
  updateReplicas E meta keyspace;;
  Store meta.

(** The world after a publish: one new snapshot object, one new map
    object, the slot pointing to the new snapshot, the mutex released. *)
Definition publish (ring : option TokenRing)
    (g : gmap string tokenRingReplicas) (lg : StdLogger)
    (lines : list string) (w : world) : world :=
  {| mgr := set_mu false
              (set_metadata
                 (atomicValue.Store (length (structs w)) (metadata (mgr w)))
                 (mgr w));
     structs := structs w
                ++ [{| replicas := Some (length (maps w));
                       tokenRing := ring |}];
     maps := maps w ++ [g];
     printed := printed w ++ ((lg,.) <$> lines) |}.

(** A world in which a mutating call runs to its end: the collaborators
    are bound, the mutex is free, and the current snapshot [c] (the zero
    value when nothing is published) and its map [old] can be read. *)
Record ready (w : world) (s1 s2 : Session) (lg : StdLogger)
    (c : ClusterMetadata) (old : gmap string tokenRingReplicas) : Prop :=
  mkReady {
    ready_resolver : getKeyspaceMetadata (mgr w) = Some s1;
    ready_name : getKeyspaceName (mgr w) = Some s2;
    ready_logger : logger (mgr w) = Some lg;
    ready_mu : mu (mgr w) = false;
    ready_current : current w = Some c;
    ready_map : map_of w (replicas c) = Some old
  }.

(** The host list after the loop of [addHosts]. *)
Definition add_all (hs : list HostInfo) (l : cowHostList.t) : cowHostList.t :=
  foldl (λ acc h, (cowHostList.add h acc).1) l hs.

(** The world [rebuild] publishes from. *)
Definition rebuilt (E : Env) (s1 s2 : Session) (lg : StdLogger)
    (c : ClusterMetadata) (old : gmap string tokenRingReplicas)
    (w : world) : world :=
  let ring := ring_after E (partitioner (mgr w)) (hosts (mgr w))
                (tokenRing c) in
  let keyspace := Session_cfg_Keyspace E s2 in
  publish ring (new_replicas E s1 keyspace ring old) lg
    (ring_log E (partitioner (mgr w)) (hosts (mgr w))
     ++ strategy_log E s1 keyspace) w.

(** The panic of the shared block when [init] was never called. *)
Definition rebuild_panic (E : Env) (partitioner : string)
    (hosts : list HostInfo) : panicValue :=
  if String.eqb partitioner "" then NilFuncCall "getKeyspaceName"
  else match newTokenRing E partitioner hosts with
       | inl _ => NilFuncCall "getKeyspaceName"
       | inr _ => NilInterfaceCall "logger"
       end.

(** The invariant of every world reached from [freshWorld]: [init] binds
    the three collaborators together. *)
Definition inv (w : world) : Prop :=
  wf w ∧ (uninitialized (mgr w) ∨ initialized (mgr w)).

(** Objects are only ever added to the store, and the slot only ever
    receives further values. *)
Record grows (w w' : world) : Prop := mkGrows {
  grows_structs : structs w `prefix_of` structs w';
  grows_maps : maps w `prefix_of` maps w';
  grows_metadata : metadata (mgr w) `suffix_of` metadata (mgr w')
}.


(** The world the shared block leaves behind when it panics on a nil
    collaborator: the working copy, with the ring it had received. *)
Definition abandoned (E : Env) (c : ClusterMetadata) (w : world) : world :=
  with_structs
    (structs w
     ++ [set_tokenRing
           (ring_after E (partitioner (mgr w)) (hosts (mgr w))
              (tokenRing c)) c]) w.

(** A world in which [init] was never called. *)
Record unbound (w : world) (c : ClusterMetadata) : Prop := mkUnbound {
  unbound_resolver : getKeyspaceMetadata (mgr w) = None;
  unbound_name : getKeyspaceName (mgr w) = None;
  unbound_logger : logger (mgr w) = None;
  unbound_mu : mu (mgr w) = false;
  unbound_current : current w = Some c
}.


(** ** What each operation does, read off the source *)

(** Whether the call reaches the copy-recompute-publish block. *)
Definition updates (o : op) (m : clusterMetadataManager) : bool :=
  match o with
  | Init _ => false
  | KeyspaceChanged _ => true
  | SetPartitioner p => bool_decide (partitioner m ≠ p)
  | AddHost h => negb (cowHostList.known (ConnectAddress h) (hosts m))
  | AddHosts _ => true
  | RemoveHost h => cowHostList.known (ConnectAddress h) (hosts m)
  end.

(** Whether the call goes through [resetTokenRing]. *)
Definition resets_ring (o : op) : bool :=
  match o with
  | Init _ | KeyspaceChanged _ => false
  | _ => true
  end.

Definition hosts_after (o : op) (l : cowHostList.t) : cowHostList.t :=
  match o with
  | AddHost h => (cowHostList.add h l).1
  | AddHosts hs => add_all hs l
  | RemoveHost h => (cowHostList.remove (ConnectAddress h) l).1
  | _ => l
  end.

Definition partitioner_after (o : op) (p : string) : string :=
  match o with
  | SetPartitioner p' => p'
  | _ => p
  end.

(** The keyspace handed to [updateReplicas]. *)
Definition target_keyspace (E : Env) (o : op) (s2 : Session) : string :=
  match o with
  | KeyspaceChanged ks => ks
  | _ => Session_cfg_Keyspace E s2
  end.

(** The world just before the shared block: membership and partitioner
    already changed. *)
Definition prepared (o : op) (w : world) : world :=
  with_mgr (λ m, set_partitioner (partitioner_after o (partitioner m))
                   (set_hosts (hosts_after o (hosts m)) m)) w.

(** The ring of the working copy when [updateReplicas] is entered. *)
Definition working_ring (E : Env) (o : op) (w : world)
    (ring : option TokenRing) : option TokenRing :=
  if resets_ring o
  then ring_after E (partitioner (mgr (prepared o w)))
         (hosts (mgr (prepared o w))) ring
  else ring.

Definition working_log (E : Env) (o : op) (w : world) : list string :=
  if resets_ring o
  then ring_log E (partitioner (mgr (prepared o w)))
         (hosts (mgr (prepared o w)))
  else [].

(** What the working copy starts from: the published snapshot, or the
    zero value when nothing has been published. *)
Definition previous (w : world)
  : option (option TokenRing * gmap string tokenRingReplicas) :=
  match getMetadataReadOnly (mgr w) with
  | Some p => snapshot w p
  | None => Some (None, ∅)
  end.

(** An initialised manager at rest whose working copy will start from
    the ring [ring] and the replica map [g]. *)
Record serving (w : world) (s1 s2 : Session) (lg : StdLogger)
    (ring : option TokenRing) (g : gmap string tokenRingReplicas)
  : Prop := mkServing {
    serving_resolver : getKeyspaceMetadata (mgr w) = Some s1;
    serving_name : getKeyspaceName (mgr w) = Some s2;
    serving_logger : logger (mgr w) = Some lg;
    serving_mu : mu (mgr w) = false;
    serving_previous : previous w = Some (ring, g)
  }.

(** A manager at rest on which [init] was never called. *)
Record idle (w : world) : Prop := mkIdle {
  idle_unbound : uninitialized (mgr w);
  idle_mu : mu (mgr w) = false;
  idle_previous : is_Some (previous w)
}.

Definition bindings (m : clusterMetadataManager)
  : option Session * option Session * option StdLogger :=
  (getKeyspaceMetadata m, getKeyspaceName m, logger m).

(** The panic of a call that reaches the block before [init]. *)
Definition unbound_panic (E : Env) (o : op) (w : world) : panicValue :=
  if resets_ring o
  then rebuild_panic E (partitioner (mgr (prepared o w)))
         (hosts (mgr (prepared o w)))
  else NilFuncCall "getKeyspaceMetadata".


(** ** Sequences of calls that return *)

Definition is_Init (o : op) : bool :=
  match o with
  | Init _ => true
  | _ => false
  end.

(** Every call of the sequence returns normally, none panics or blocks. *)
Fixpoint returns (t : list (Env * op)) (w : world) : Prop :=
  match t with
  | [] => True
  | (E, o) :: t' => ∃ w', run E o w = Ret tt w' ∧ returns t' w'
  end.

(** The host list and the partitioner a sequence of calls leaves. *)
Definition hosts_after_all (t : list (Env * op)) (l : cowHostList.t)
  : cowHostList.t :=
  foldl (λ acc eo, hosts_after eo.2 acc) l t.

Definition partitioner_after_all (t : list (Env * op)) (p : string)
  : string :=
  foldl (λ acc eo, partitioner_after eo.2 acc) p t.



(** The working copy a call leaves in the store carries the ring of the
    snapshot it was copied from, or the ring [resetTokenRing] gave it. *)
Definition copy_of (E : Env) (w w' : world) (c c' : ClusterMetadata) : Prop :=
  structs w' = structs w ++ [c']
  ∧ (tokenRing c' = tokenRing c
     ∨ tokenRing c'
       = ring_after E (partitioner (mgr w')) (hosts (mgr w')) (tokenRing c)).

(** No object of the store has a ring while the partitioner is empty. *)
Definition ringless (w : world) : Prop :=
  partitioner (mgr w) = ""%string
  ∧ ∀ c, c ∈ structs w → tokenRing c = None.


End Manager.

Arguments Ret {TokenRing tokenRingReplicas A} a w.
Arguments Panic {TokenRing tokenRingReplicas A} p w.
Arguments Blocked {TokenRing tokenRingReplicas A}.

(** * A concrete cluster *)

Module Example.

(** A ring is shown by its partitioner and the addresses it was built
    from, a replica table by the strategy and that ring, a keyspace
    schema by its strategy class. *)
Definition Ring : Type := string * list IP.
Definition Replicas : Type := string * Ring.
Definition Schema : Type := string.

Definition simple : @placementStrategy Ring Replicas :=
  λ ring, ("SimpleStrategy"%string, ring).

Definition buildRing (p : string) (hs : list HostInfo) : Ring + error :=
  if String.eqb p "Murmur3Partitioner"
  then match hs with
       | [] => inr "no tokens available"%string
       | _ => inl (p, ConnectAddress <$> hs)
       end
  else inr "unsupported partitioner"%string.

Definition strategyOf (k : Schema)
  : option (@placementStrategy Ring Replicas) * list string :=
  if String.eqb k "SimpleStrategy" then (Some simple, [])
  else (None, ["unsupported strategy class"%string]).

(** The cluster knows the keyspaces ks1 and ks2; the session uses ks1. *)
Definition E1 : @Env Ring Replicas Schema :=
  {| Session_KeyspaceMetadata := λ _ ks,
       if String.eqb ks "ks1" || String.eqb ks "ks2"
       then inl "SimpleStrategy"%string
       else inr "keyspace does not exist"%string;
     Session_cfg_Keyspace := λ _, "ks1"%string;
     newTokenRing := buildRing;
     getStrategy := strategyOf |}.

(** The same cluster after its keyspaces were dropped. *)
Definition E2 : @Env Ring Replicas Schema :=
  {| Session_KeyspaceMetadata := λ _ _,
       inr "keyspace does not exist"%string;
     Session_cfg_Keyspace := λ _, "ks1"%string;
     newTokenRing := buildRing;
     getStrategy := strategyOf |}.

Definition lg : StdLogger := Logger "gocql".
Definition sess : Session := {| session_id := 1; session_logger := lg |}.
Definition h1 : HostInfo :=
  {| connectAddress := "10.0.0.1"; hostTokens := ["0"%string] |}.
Definition h2 : HostInfo :=
  {| connectAddress := "10.0.0.2"; hostTokens := ["50"%string] |}.

Definition fresh : @world Ring Replicas := freshWorld.

(** init, partitioner, one host: one ring, replicas for ks1. *)
Definition started : list (@Env Ring Replicas Schema * op) :=
  [(E1, Init sess); (E1, SetPartitioner "Murmur3Partitioner");
   (E1, AddHost h1)].

Definition wA := exec started fresh.

Definition ringA : Ring := ("Murmur3Partitioner"%string, ["10.0.0.1"%string]).
Definition repA : Replicas := ("SimpleStrategy"%string, ringA).
Definition gA : gmap string Replicas := <["ks1"%string := repA]> ∅.

Definition sess2 : Session := {| session_id := 2; session_logger := lg |}.

Definition later : list (@Env Ring Replicas Schema * op) :=
  [(E1, AddHost h2); (E2, KeyspaceChanged "ks1")].

(** Further inputs: a manager that is initialised and nothing else, and
    sequences of calls. *)
Definition wB : @world Ring Replicas :=
  exec [(E1, Init sess)] fresh.

Definition busy : list (@Env Ring Replicas Schema * op) :=
  [(E1, AddHost h2); (E2, KeyspaceChanged "ks1"); (E1, RemoveHost h1)].

Definition early : list (@Env Ring Replicas Schema * op) :=
  [(E1, AddHost h1); (E1, SetPartitioner "Murmur3Partitioner")].

Definition unpartitioned : list (@Env Ring Replicas Schema * op) :=
  [(E1, Init sess); (E1, AddHost h1); (E1, KeyspaceChanged "ks1")].

Definition ringB : Ring :=
  ("Murmur3Partitioner"%string, ["10.0.0.1"%string; "10.0.0.2"%string]).

(** A ring is built for one host, then the host is removed. *)
Definition emptied : list (@Env Ring Replicas Schema * op) :=
  [(E1, Init sess); (E1, SetPartitioner "Murmur3Partitioner");
   (E1, AddHost h1); (E1, RemoveHost h1)].

End Example.

(** * Proofs *)

Section Proofs.

Context {TokenRing tokenRingReplicas KeyspaceMetadata : Type}.

Implicit Types w : @world TokenRing tokenRingReplicas.
Implicit Types c : @ClusterMetadata TokenRing.
Implicit Types E : @Env TokenRing tokenRingReplicas KeyspaceMetadata.
Implicit Types t :
  list (@Env TokenRing tokenRingReplicas KeyspaceMetadata * op).
Implicit Types g old : gmap string tokenRingReplicas.
Implicit Types ring : option TokenRing.

#[local] Existing Instance M_ret.
#[local] Existing Instance M_bind.

#[local] Abbreviation fresh0 := (@freshWorld TokenRing tokenRingReplicas).

(** * Evaluation of the operations *)

Lemma bind_Ret {A B} (c : M A) (k : A → M B) w a w' :
  c w = Ret a w' → (c ≫= k) w = k a w'.
Proof. intros H. unfold mbind, M_bind, bind. by rewrite H. Qed.

Lemma bind_Panic {A B} (c : M A) (k : A → M B) w p w' :
  c w = Panic p w' → (c ≫= k) w = Panic p w'.
Proof. intros H. unfold mbind, M_bind, bind. by rewrite H. Qed.

Lemma lookup_snoc_last {A} (l : list A) (x : A) :
  (l ++ [x]) !! length l = Some x.
Proof. by rewrite list_lookup_middle. Qed.

Lemma insert_snoc_last {A} (l : list A) (x y : A) :
  <[length l := y]> (l ++ [x]) = l ++ [y].
Proof.
  rewrite insert_app_r_alt by lia. by rewrite Nat.sub_diag.
Qed.

Lemma getMetadataForUpdate_eq w c :
  current w = Some c →
  getMetadataForUpdate w
  = Ret (length (structs w)) (with_structs (structs w ++ [c]) w).
Proof.
  unfold current, getMetadataForUpdate. intros H.
  unfold mbind, M_bind, bind, this, new_ClusterMetadata, deref, assign, ret.
  destruct w as [m ss ms pr]; cbn in *.
  destruct (getMetadataReadOnly m) as [p|]; cbn.
  - rewrite (lookup_app_l_Some _ _ _ _ H); cbn.
    rewrite lookup_snoc_last; cbn.
    unfold with_structs; cbn. by rewrite insert_snoc_last.
  - by inversion H.
Qed.

Lemma resetTokenRing_eq E l c part hs lg w :
  structs w = l ++ [c] →
  resetTokenRing E (length l) part hs (Some lg) w
  = Ret tt (with_printed (printed w ++ ((lg,.) <$> ring_log E part hs))
             (with_structs
                (l ++ [set_tokenRing (ring_after E part hs (tokenRing c)) c])
                w)).
Proof.
  intros Hs. unfold resetTokenRing, ring_after, ring_log.
  destruct w as [m ss ms pr]; cbn in *; subst ss.
  destruct (String.eqb part ""); [|destruct (newTokenRing E part hs)];
    unfold ret, with_printed, with_structs; cbn;
    rewrite ?app_nil_r; try by destruct c.
  unfold mbind, M_bind, bind, deref, assign; cbn.
  rewrite lookup_snoc_last; cbn. rewrite lookup_snoc_last; cbn.
  by rewrite insert_snoc_last.
Qed.

Lemma print_lines_eq lg lines w :
  print_lines (Some lg) lines w
  = Ret tt (with_printed (printed w ++ ((lg,.) <$> lines)) w).
Proof.
  revert w. induction lines as [|x xs IH]; intros [m ss ms pr]; cbn.
  - unfold ret, with_printed; cbn. by rewrite app_nil_r.
  - unfold mbind, M_bind, bind; cbn. rewrite IH.
    unfold with_printed; cbn. by rewrite <- app_assoc.
Qed.

Lemma range_over_eq keyspace r l g w :
  maps w !! r = Some g →
  range_over l (λ ks replicas,
    if bool_decide (ks ≠ keyspace) then map_assign r ks replicas
    else ret tt) w
  = Ret tt (with_maps (<[r := carry_over keyspace l g]> (maps w)) w).
Proof.
  revert g w. induction l as [|[k v] l IH]; intros g [m ss ms pr] Hr;
    cbn in *.
  - unfold ret, with_maps; cbn. by rewrite list_insert_id.
  - unfold mbind, M_bind, bind. case_bool_decide; cbn.
    + unfold map_assign; cbn. rewrite Hr.
      erewrite IH; cbn.
      2:{ apply list_lookup_insert_eq. by eapply lookup_lt_Some. }
      unfold with_maps; cbn. by rewrite list_insert_insert_eq.
    + by erewrite IH.
Qed.

Lemma carry_over_cons keyspace k v l g :
  carry_over keyspace ((k, v) :: l) g
  = carry_over keyspace l
      (if bool_decide (k ≠ keyspace) then <[k := v]> g else g).
Proof. done. Qed.

Lemma carry_over_lookup keyspace l g j :
  NoDup l.*1 →
  carry_over keyspace l g !! j
  = if bool_decide (j = keyspace) then g !! j
    else match (list_to_map l : gmap string tokenRingReplicas) !! j with
         | Some v => Some v
         | None => g !! j
         end.
Proof.
  revert g. induction l as [|[k v] l IH]; intros g Hnd.
  - cbn. rewrite lookup_empty. by case_bool_decide.
  - rewrite fmap_cons in Hnd. apply NoDup_cons in Hnd as [Hk Hnd].
    rewrite carry_over_cons, IH by done. clear IH. rewrite list_to_map_cons.
    assert ((list_to_map l : gmap string tokenRingReplicas) !! k = None)
      as Hnone by by apply not_elem_of_list_to_map_1.
    destruct (decide (j = k)) as [Hjk|Hjk];
      repeat case_bool_decide; simplify_eq; cbn;
      rewrite ?Hnone, ?lookup_insert_eq, ?lookup_insert_ne by done;
      done.
Qed.

Lemma new_replicas_lookup E s keyspace ring old j :
  new_replicas E s keyspace ring old !! j
  = if bool_decide (j = keyspace) then target_entry E s keyspace ring
    else old !! j.
Proof.
  unfold new_replicas.
  rewrite carry_over_lookup by apply NoDup_fst_map_to_list.
  rewrite list_to_map_to_list. case_bool_decide as Hj.
  - subst j. destruct (target_entry _ _ _ _); [apply lookup_insert_eq|done].
  - destruct (old !! j); [done|].
    destruct (target_entry _ _ _ _); [by rewrite lookup_insert_ne|done].
Qed.

Lemma updateReplicas_eq E l c keyspace s lg old w :
  structs w = l ++ [c] →
  getKeyspaceMetadata (mgr w) = Some s →
  logger (mgr w) = Some lg →
  map_of w (replicas c) = Some old →
  updateReplicas E (length l) keyspace w
  = Ret tt
      {| mgr := mgr w;
         structs := l ++ [set_replicas (Some (length (maps w))) c];
         maps := maps w
                 ++ [new_replicas E s keyspace (tokenRing c) old];
         printed := printed w
                    ++ ((lg,.) <$> strategy_log E s keyspace) |}.
Proof.
  intros Hs Hk Hlg Hold. destruct w as [m ss ms pr]; cbn in *; subst ss.
  unfold updateReplicas, new_replicas, target_entry, strategy_log.
  unfold mbind at 1, M_bind at 1, bind at 1, deref at 1; cbn.
  rewrite lookup_snoc_last.
  unfold mbind at 1, M_bind at 1, bind at 1, make_map at 1; cbn.
  unfold mbind at 1, M_bind at 1, bind at 1.
  unfold call_getKeyspaceMetadata, this, mbind at 1, M_bind at 1, bind at 1.
  cbn. rewrite Hk. cbn.
  set (g0 := match match Session_KeyspaceMetadata E s keyspace with
                   | inl ks => match (getStrategy E ks).1 with
                               | Some replicaMap => replicaMap <$> tokenRing c
                               | None => None
                               end
                   | inr _ => None
                   end with
             | Some v => <[keyspace:=v]> ∅
             | None => ∅
             end).
  set (lines := match Session_KeyspaceMetadata E s keyspace with
                | inl ks => (getStrategy E ks).2
                | inr _ => []
                end).
  rewrite (bind_Ret _ _ _ tt
             {| mgr := m; structs := l ++ [c]; maps := ms ++ [g0];
                printed := pr ++ ((lg,.) <$> lines) |}).
  2:{ subst g0 lines. unfold with_maps; cbn.
      destruct (Session_KeyspaceMetadata E s keyspace) as [ks|err]; cbn.
      2:{ unfold ret. by rewrite app_nil_r. }
      unfold call_getStrategy, this.
      unfold mbind at 1, M_bind at 1, bind at 1.
      unfold mbind at 1, M_bind at 1, bind at 1.
      unfold mbind at 1, M_bind at 1, bind at 1. cbn.
      rewrite Hlg, print_lines_eq. cbn.
      destruct (getStrategy E ks).1 as [f|]; cbn; [|done].
      unfold mbind, M_bind, bind, deref; cbn. rewrite lookup_snoc_last.
      destruct (tokenRing c) as [ring|]; cbn; [|done].
      unfold map_assign; cbn. rewrite lookup_snoc_last.
      unfold with_maps; cbn. by rewrite insert_snoc_last. }
  unfold mbind at 1, M_bind at 1, bind at 1, deref at 1; cbn.
  rewrite lookup_snoc_last.
  unfold mbind at 1, M_bind at 1, bind at 1.
  assert (map_contents (replicas c)
            {| mgr := m; structs := l ++ [c]; maps := ms ++ [g0];
               printed := pr ++ ((lg,.) <$> lines) |}
          = Ret old {| mgr := m; structs := l ++ [c]; maps := ms ++ [g0];
                       printed := pr ++ ((lg,.) <$> lines) |}) as ->.
  { unfold map_contents, map_of in *. destruct (replicas c) as [i|]; cbn in *.
    - by rewrite (lookup_app_l_Some _ _ _ _ Hold).
    - by inversion Hold. }
  erewrite bind_Ret.
  2:{ apply range_over_eq with (g := g0). cbn. apply lookup_snoc_last. }
  unfold with_maps; cbn. rewrite insert_snoc_last.
  unfold mbind, M_bind, bind, deref, assign; cbn.
  rewrite lookup_snoc_last; cbn. rewrite lookup_snoc_last; cbn.
  unfold with_structs; cbn. by rewrite insert_snoc_last.
Qed.

Lemma rebuild_eq E w s1 s2 lg c old :
  getKeyspaceMetadata (mgr w) = Some s1 →
  getKeyspaceName (mgr w) = Some s2 →
  logger (mgr w) = Some lg →
  current w = Some c →
  map_of w (replicas c) = Some old →
  let ring := ring_after E (partitioner (mgr w)) (hosts (mgr w))
                (tokenRing c) in
  let keyspace := Session_cfg_Keyspace E s2 in
  defer Unlock (rebuild E) w
  = Ret tt (publish ring (new_replicas E s1 keyspace ring old) lg
              (ring_log E (partitioner (mgr w)) (hosts (mgr w))
               ++ strategy_log E s1 keyspace) w).
Proof.
  intros H1 H2 H3 Hc Hold ring keyspace. unfold defer, rebuild.
  rewrite (bind_Ret _ _ _ _ _ (getMetadataForUpdate_eq w c Hc)).
  unfold mbind at 1, M_bind at 1, bind at 1, this at 1. cbn.
  rewrite H3.
  erewrite bind_Ret; [|by apply resetTokenRing_eq].
  unfold call_getKeyspaceName, this.
  unfold mbind at 1, M_bind at 1, bind at 1.
  unfold mbind at 1, M_bind at 1, bind at 1. cbn. rewrite H2. cbn.
  erewrite bind_Ret.
  2:{ by eapply updateReplicas_eq with (old := old). }
  unfold Store, update, publish, Unlock, with_mgr; cbn.
  unfold cowHostList.get. subst ring keyspace.
  by rewrite fmap_app, app_assoc.
Qed.

Lemma keyspaceChanged_body_eq E keyspace w s1 lg c old :
  getKeyspaceMetadata (mgr w) = Some s1 →
  logger (mgr w) = Some lg →
  current w = Some c →
  map_of w (replicas c) = Some old →
  defer Unlock (meta ← getMetadataForUpdate;
                updateReplicas E meta keyspace;; Store meta) w
  = Ret tt (publish (tokenRing c)
              (new_replicas E s1 keyspace (tokenRing c) old) lg
              (strategy_log E s1 keyspace) w).
Proof.
  intros H1 H3 Hc Hold. unfold defer.
  rewrite (bind_Ret _ _ _ _ _ (getMetadataForUpdate_eq w c Hc)).
  erewrite bind_Ret.
  2:{ by eapply updateReplicas_eq with (old := old). }
  unfold Store, update, publish, Unlock, with_mgr; cbn.
  by destruct c.
Qed.

Lemma locked_free {A} (body : M A) w :
  mu (mgr w) = false →
  locked body w = defer Unlock body (with_mgr (set_mu true) w).
Proof.
  intros H. unfold locked, Lock, mbind, M_bind, bind. by rewrite H.
Qed.

Lemma locked_held {A} (body : M A) w :
  mu (mgr w) = true → locked body w = Blocked.
Proof.
  intros H. unfold locked, Lock, mbind, M_bind, bind. by rewrite H.
Qed.

Lemma unlock_lock w :
  mu (mgr w) = false →
  Unlock (with_mgr (set_mu true) w) = w.
Proof. destruct w as [[] ? ? ?]; cbn. by intros ->. Qed.

Lemma add_each_eq hs w :
  add_each hs w = Ret tt (with_mgr (set_hosts (add_all hs (hosts (mgr w)))) w).
Proof.
  revert w. induction hs as [|h hs IH]; intros [m ss ms pr]; cbn.
  - unfold ret, with_mgr; cbn. by destruct m.
  - unfold hosts_add, this, update.
    unfold mbind at 1, M_bind at 1, bind at 1.
    unfold mbind at 1, M_bind at 1, bind at 1. cbn.
    destruct (cowHostList.add h (hosts m)) as [l' b] eqn:Hadd.
    unfold mbind at 1, M_bind at 1, bind at 1. cbn.
    by rewrite IH.
Qed.

Lemma keyspaceChanged_eq E keyspace w s1 s2 lg c old :
  ready w s1 s2 lg c old →
  keyspaceChanged E keyspace w
  = Ret tt (publish (tokenRing c)
              (new_replicas E s1 keyspace (tokenRing c) old) lg
              (strategy_log E s1 keyspace) w).
Proof.
  intros []. unfold keyspaceChanged. rewrite locked_free by done.
  by erewrite keyspaceChanged_body_eq.
Qed.

Lemma rebuild_locked E w s1 s2 lg c old :
  ready w s1 s2 lg c old →
  defer Unlock (rebuild E) (with_mgr (set_mu true) w)
  = Ret tt (rebuilt E s1 s2 lg c old w).
Proof. intros []. by erewrite rebuild_eq. Qed.

Lemma ready_set_hosts w s1 s2 lg c old l :
  ready w s1 s2 lg c old →
  ready (with_mgr (set_hosts l) w) s1 s2 lg c old.
Proof. by intros []. Qed.

Lemma ready_set_partitioner w s1 s2 lg c old p :
  ready w s1 s2 lg c old →
  ready (with_mgr (set_partitioner p) w) s1 s2 lg c old.
Proof. by intros []. Qed.

Lemma addHost_new_eq E host w s1 s2 lg c old :
  ready w s1 s2 lg c old →
  cowHostList.known (ConnectAddress host) (hosts (mgr w)) = false →
  addHost E host w
  = Ret tt (rebuilt E s1 s2 lg c old
              (with_mgr (set_hosts (hosts (mgr w) ++ [host])) w)).
Proof.
  intros Hr Hk. unfold addHost. rewrite locked_free by apply Hr.
  rewrite <- (rebuild_locked E _ _ _ _ _ _
                (ready_set_hosts _ _ _ _ _ _ _ Hr)).
  unfold defer, hosts_add, this, update, mbind, M_bind, bind at 1 2 3. cbn.
  unfold cowHostList.add. by rewrite Hk.
Qed.

Lemma addHost_known_eq E host w :
  mu (mgr w) = false →
  cowHostList.known (ConnectAddress host) (hosts (mgr w)) = true →
  addHost E host w = Ret tt w.
Proof.
  intros Hmu Hk. unfold addHost. rewrite locked_free by done.
  unfold defer, hosts_add, this, update, mbind, M_bind, bind. cbn.
  unfold cowHostList.add. rewrite Hk. cbn.
  destruct w as [[] ? ? ?]; cbn in *. by subst.
Qed.

Lemma removeHost_known_eq E host w s1 s2 lg c old :
  ready w s1 s2 lg c old →
  cowHostList.known (ConnectAddress host) (hosts (mgr w)) = true →
  removeHost E host w
  = Ret tt (rebuilt E s1 s2 lg c old
              (with_mgr (set_hosts
                 (cowHostList.remove (ConnectAddress host)
                    (hosts (mgr w))).1) w)).
Proof.
  intros Hr Hk. unfold removeHost. rewrite locked_free by apply Hr.
  rewrite <- (rebuild_locked E _ _ _ _ _ _
                (ready_set_hosts _ _ _ _ _ _ _ Hr)).
  unfold defer, hosts_remove, this, update, mbind, M_bind, bind at 1 2 3.
  cbn. unfold cowHostList.remove. by rewrite Hk.
Qed.

Lemma removeHost_unknown_eq E host w :
  mu (mgr w) = false →
  cowHostList.known (ConnectAddress host) (hosts (mgr w)) = false →
  removeHost E host w = Ret tt w.
Proof.
  intros Hmu Hk. unfold removeHost. rewrite locked_free by done.
  unfold defer, hosts_remove, this, update, mbind, M_bind, bind. cbn.
  unfold cowHostList.remove. rewrite Hk. cbn.
  destruct w as [[] ? ? ?]; cbn in *. by subst.
Qed.

Lemma addHosts_eq E hs w s1 s2 lg c old :
  ready w s1 s2 lg c old →
  addHosts E hs w
  = Ret tt (rebuilt E s1 s2 lg c old
              (with_mgr (set_hosts (add_all hs (hosts (mgr w)))) w)).
Proof.
  intros Hr. unfold addHosts. rewrite locked_free by apply Hr.
  rewrite <- (rebuild_locked E _ _ _ _ _ _
                (ready_set_hosts _ _ _ _ _ _ _ Hr)).
  unfold defer, mbind, M_bind, bind at 1. by rewrite add_each_eq.
Qed.

Lemma setPartitioner_changed_eq E p w s1 s2 lg c old :
  ready w s1 s2 lg c old →
  partitioner (mgr w) ≠ p →
  setPartitioner E p w
  = Ret tt (rebuilt E s1 s2 lg c old (with_mgr (set_partitioner p) w)).
Proof.
  intros Hr Hp. unfold setPartitioner. rewrite locked_free by apply Hr.
  rewrite <- (rebuild_locked E _ _ _ _ _ _
                (ready_set_partitioner _ _ _ _ _ _ _ Hr)).
  unfold defer, this, update, mbind, M_bind, bind at 1 2. cbn.
  by rewrite bool_decide_true.
Qed.

Lemma setPartitioner_same_eq E p w :
  mu (mgr w) = false →
  partitioner (mgr w) = p →
  setPartitioner E p w = Ret tt w.
Proof.
  intros Hmu Hp. unfold setPartitioner. rewrite locked_free by done.
  unfold defer, this, update, mbind, M_bind, bind. cbn.
  rewrite bool_decide_false by (by intros []).
  cbn. destruct w as [[] ? ? ?]; cbn in *. by subst.
Qed.

Lemma init_first_eq s w :
  mu (mgr w) = false →
  getKeyspaceMetadata (mgr w) = None →
  init s w = Ret tt (with_mgr (bind_session s) w).
Proof.
  intros Hmu Hk. unfold init. rewrite locked_free by done.
  unfold defer, this, update, mbind, M_bind, bind. cbn. rewrite Hk.
  unfold Unlock, with_mgr; cbn. by rewrite <- Hmu.
Qed.

Lemma init_again_eq s w :
  mu (mgr w) = false →
  is_Some (getKeyspaceMetadata (mgr w)) →
  init s w = Panic (PanicString initPanicMessage) w.
Proof.
  intros Hmu [s0 Hk]. unfold init. rewrite locked_free by done.
  unfold defer, this, panic, mbind, M_bind, bind. cbn. rewrite Hk.
  by rewrite unlock_lock.
Qed.

(** *** Calls on a manager whose collaborators are still nil *)
Lemma keyspaceChanged_unbound_eq E keyspace w c :
  mu (mgr w) = false →
  getKeyspaceMetadata (mgr w) = None →
  current w = Some c →
  keyspaceChanged E keyspace w
  = Panic (NilFuncCall "getKeyspaceMetadata")
      (with_maps (maps w ++ [∅]) (with_structs (structs w ++ [c]) w)).
Proof.
  intros Hmu Hk Hc. unfold keyspaceChanged. rewrite locked_free by done.
  unfold defer.
  erewrite bind_Ret; [|by apply getMetadataForUpdate_eq].
  unfold updateReplicas, call_getKeyspaceMetadata, this, make_map, deref.
  unfold mbind, M_bind, bind. cbn. rewrite lookup_snoc_last. cbn.
  rewrite Hk.
  unfold Unlock, with_maps, with_structs, with_mgr; cbn.
  destruct w as [[] ? ? ?]; cbn in *. by subst.
Qed.

Lemma rebuild_unbound_eq E w c :
  mu (mgr w) = false →
  getKeyspaceName (mgr w) = None →
  logger (mgr w) = None →
  current w = Some c →
  defer Unlock (rebuild E) (with_mgr (set_mu true) w)
  = Panic (rebuild_panic E (partitioner (mgr w)) (hosts (mgr w)))
      (with_structs
         (structs w
          ++ [set_tokenRing
                (ring_after E (partitioner (mgr w)) (hosts (mgr w))
                   (tokenRing c)) c]) w).
Proof.
  intros Hmu Hn Hl Hc. unfold defer, rebuild.
  erewrite bind_Ret; [|by apply getMetadataForUpdate_eq].
  unfold mbind at 1, M_bind at 1, bind at 1, this at 1. cbn.
  rewrite Hl. unfold resetTokenRing, rebuild_panic, ring_after,
    cowHostList.get.
  assert (∀ x, with_structs x w
               = Unlock (with_structs x (with_mgr (set_mu true) w))) as Hw.
  { intros x. destruct w as [[] ? ? ?]; cbn in *. by subst. }
  destruct (String.eqb (partitioner (mgr w)) "");
    [|destruct (newTokenRing E _ _) as [ring|err]].
  - unfold call_getKeyspaceName, this, ret, panic, mbind, M_bind, bind. cbn.
    rewrite Hn. rewrite Hw. by destruct c.
  - unfold call_getKeyspaceName, this, ret, panic, deref, assign,
      mbind, M_bind, bind. cbn.
    rewrite lookup_snoc_last; cbn. rewrite lookup_snoc_last; cbn.
    rewrite Hn. rewrite Hw. unfold with_structs; cbn.
    by rewrite insert_snoc_last.
  - unfold Printf, panic, mbind, M_bind, bind. cbn.
    rewrite Hw. by destruct c.
Qed.


(** * Invariants *)

Lemma wf_fresh : wf fresh0.
Proof.
  split; cbn; [done| |]; intros *; by rewrite ?elem_of_nil.
Qed.

Lemma inv_fresh : inv fresh0.
Proof. split; [apply wf_fresh|]. by left. Qed.

Lemma wf_current w :
  wf w →
  ∃ c old, current w = Some c ∧ map_of w (replicas c) = Some old.
Proof.
  intros [Hmu Hp Hr]. unfold current, getMetadataReadOnly, atomicValue.Load.
  destruct (metadata (mgr w)) as [|p ps] eqn:Hmd; cbn.
  - by exists zeroClusterMetadata, ∅.
  - destruct (lookup_lt_is_Some_2 (structs w) p) as [c Hc].
    { apply Hp; rewrite ?Hmd; by left. }
    exists c. unfold map_of. destruct (replicas c) as [r|] eqn:Hrc.
    + destruct (lookup_lt_is_Some_2 (maps w) r) as [g Hg].
      { eapply Hr; [|done]. by eapply list_elem_of_lookup_2. }
      by exists g.
    + by exists ∅.
Qed.

Lemma current_replicas_valid w c r :
  wf w → current w = Some c → replicas c = Some r → r < length (maps w).
Proof.
  intros [_ _ Hr] Hc Hrc. unfold current in Hc.
  destruct (getMetadataReadOnly (mgr w)).
  - eapply Hr; [|done]. by eapply list_elem_of_lookup_2.
  - by simplify_eq.
Qed.

Lemma inv_ready w :
  inv w → initialized (mgr w) →
  ∃ s1 s2 lg c old, ready w s1 s2 lg c old.
Proof.
  intros [Hwf _] ([s1 H1] & [s2 H2] & [lg H3]).
  destruct (wf_current w Hwf) as (c & old & Hc & Hold).
  exists s1, s2, lg, c, old. split; try done. apply Hwf.
Qed.

Lemma grows_refl w : grows w w.
Proof. by split. Qed.

Lemma grows_trans w1 w2 w3 : grows w1 w2 → grows w2 w3 → grows w1 w3.
Proof. intros [] []. split; by etrans. Qed.

Lemma snapshot_grows w w' p :
  wf w → grows w w' → p < length (structs w) →
  snapshot w' p = snapshot w p ∧ is_Some (snapshot w p).
Proof.
  intros [_ _ Hr] [[cs Hs] [gs Hm] _] Hp. unfold snapshot.
  destruct (lookup_lt_is_Some_2 _ _ Hp) as [c Hc].
  rewrite Hs, (lookup_app_l_Some _ _ _ _ Hc), Hc. cbn.
  destruct (replicas c) as [r|] eqn:Hrc; cbn; [|by eauto].
  destruct (lookup_lt_is_Some_2 (maps w) r) as [g Hg].
  { eapply Hr; [|done]. by eapply list_elem_of_lookup_2. }
  rewrite Hm, (lookup_app_l_Some _ _ _ _ Hg), Hg. cbn. by eauto.
Qed.

Lemma wf_publish ring g lg lines w :
  wf w → wf (publish ring g lg lines w).
Proof.
  intros [Hmu Hp Hr]. split; cbn.
  - done.
  - intros p. rewrite length_app. cbn. unfold atomicValue.Store.
    rewrite elem_of_cons. intros [->|Hin]; [lia|].
    specialize (Hp p Hin). lia.
  - intros c r. rewrite length_app, elem_of_app, list_elem_of_singleton.
    cbn. intros [Hin| ->] Hrc.
    + specialize (Hr c r Hin Hrc). lia.
    + cbn in Hrc. simplify_eq. lia.
Qed.

Lemma grows_publish ring g lg lines w :
  grows w (publish ring g lg lines w).
Proof.
  split; cbn; [by eexists|by eexists|].
  by exists [length (structs w)].
Qed.

Lemma wf_with_mgr f w :
  wf w → mu (f (mgr w)) = false → metadata (f (mgr w)) = metadata (mgr w) →
  wf (with_mgr f w).
Proof. intros [Hmu Hp Hr] H1 H2. split; cbn; [done| |done]. by rewrite H2. Qed.

Lemma grows_with_mgr f w :
  metadata (f (mgr w)) = metadata (mgr w) → grows w (with_mgr f w).
Proof. intros H. split; cbn; [done..|]. by rewrite H. Qed.

(** A working copy left behind by a panic is an unpublished object. *)
Lemma wf_abandoned w c c' gs :
  wf w → current w = Some c → replicas c' = replicas c →
  wf (with_maps (maps w ++ gs) (with_structs (structs w ++ [c']) w)).
Proof.
  intros Hwf Hc Hrc. pose proof Hwf as [Hmu Hp Hr]. split; cbn.
  - done.
  - intros p Hin. rewrite length_app. specialize (Hp p Hin). lia.
  - intros c0 r. rewrite length_app, elem_of_app, list_elem_of_singleton.
    intros [Hin| ->] Hr0.
    + specialize (Hr c0 r Hin Hr0). lia.
    + rewrite Hrc in Hr0.
      pose proof (current_replicas_valid w c r Hwf Hc Hr0). lia.
Qed.

Lemma grows_abandoned w c' gs :
  grows w (with_maps (maps w ++ gs) (with_structs (structs w ++ [c']) w)).
Proof. split; cbn; [by eexists|by eexists|done]. Qed.


Lemma rebuild_unbound_locked E w c :
  unbound w c →
  defer Unlock (rebuild E) (with_mgr (set_mu true) w)
  = Panic (rebuild_panic E (partitioner (mgr w)) (hosts (mgr w)))
      (abandoned E c w).
Proof. intros []. by apply rebuild_unbound_eq. Qed.

Lemma unbound_set_hosts w c l :
  unbound w c → unbound (with_mgr (set_hosts l) w) c.
Proof. by intros []. Qed.

Lemma unbound_set_partitioner w c p :
  unbound w c → unbound (with_mgr (set_partitioner p) w) c.
Proof. by intros []. Qed.

Lemma addHost_unbound_eq E host w c :
  unbound w c →
  cowHostList.known (ConnectAddress host) (hosts (mgr w)) = false →
  let w0 := with_mgr (set_hosts (hosts (mgr w) ++ [host])) w in
  addHost E host w
  = Panic (rebuild_panic E (partitioner (mgr w0)) (hosts (mgr w0)))
      (abandoned E c w0).
Proof.
  intros Hu Hk w0; subst w0. unfold addHost. rewrite locked_free by apply Hu.
  rewrite <- (rebuild_unbound_locked E _ _ (unbound_set_hosts _ _ _ Hu)).
  unfold defer, hosts_add, this, update, mbind, M_bind, bind at 1 2 3. cbn.
  unfold cowHostList.add. by rewrite Hk.
Qed.

Lemma removeHost_unbound_eq E host w c :
  unbound w c →
  cowHostList.known (ConnectAddress host) (hosts (mgr w)) = true →
  let w0 := with_mgr (set_hosts
              (cowHostList.remove (ConnectAddress host) (hosts (mgr w))).1)
              w in
  removeHost E host w
  = Panic (rebuild_panic E (partitioner (mgr w0)) (hosts (mgr w0)))
      (abandoned E c w0).
Proof.
  intros Hu Hk w0; subst w0. unfold removeHost. rewrite locked_free by apply Hu.
  rewrite <- (rebuild_unbound_locked E _ _ (unbound_set_hosts _ _ _ Hu)).
  unfold defer, hosts_remove, this, update, mbind, M_bind, bind at 1 2 3.
  cbn. unfold cowHostList.remove. by rewrite Hk.
Qed.

Lemma addHosts_unbound_eq E hs w c :
  unbound w c →
  let w0 := with_mgr (set_hosts (add_all hs (hosts (mgr w)))) w in
  addHosts E hs w
  = Panic (rebuild_panic E (partitioner (mgr w0)) (hosts (mgr w0)))
      (abandoned E c w0).
Proof.
  intros Hu w0; subst w0. unfold addHosts. rewrite locked_free by apply Hu.
  rewrite <- (rebuild_unbound_locked E _ _ (unbound_set_hosts _ _ _ Hu)).
  unfold defer, mbind, M_bind, bind at 1. by rewrite add_each_eq.
Qed.

Lemma setPartitioner_unbound_eq E p w c :
  unbound w c →
  partitioner (mgr w) ≠ p →
  let w0 := with_mgr (set_partitioner p) w in
  setPartitioner E p w
  = Panic (rebuild_panic E (partitioner (mgr w0)) (hosts (mgr w0)))
      (abandoned E c w0).
Proof.
  intros Hu Hp w0; subst w0. unfold setPartitioner.
  rewrite locked_free by apply Hu.
  rewrite <- (rebuild_unbound_locked E _ _
                (unbound_set_partitioner _ _ _ Hu)).
  unfold defer, this, update, mbind, M_bind, bind at 1 2. cbn.
  by rewrite bool_decide_true.
Qed.

Lemma inv_unbound w :
  inv w → uninitialized (mgr w) → ∃ c, unbound w c.
Proof.
  intros [Hwf _] (H1 & H2 & H3).
  destruct (wf_current w Hwf) as (c & old & Hc & Hold).
  exists c. split; try done. apply Hwf.
Qed.

Lemma wf_rebuilt E s1 s2 lg c old w :
  wf w → wf (rebuilt E s1 s2 lg c old w).
Proof. apply wf_publish. Qed.

Lemma grows_rebuilt E s1 s2 lg c old w :
  grows w (rebuilt E s1 s2 lg c old w).
Proof. apply grows_publish. Qed.

Lemma wf_abandoned_ring E c w :
  wf w → current w = Some c → wf (abandoned E c w).
Proof.
  intros Hwf Hc.
  pose proof (wf_abandoned w c
    (set_tokenRing (ring_after E (partitioner (mgr w)) (hosts (mgr w))
                      (tokenRing c)) c) [] Hwf Hc eq_refl) as H.
  unfold abandoned. destruct H as [H1 H2 H3]. split; cbn in *; try done.
  intros c0 r Hin Hr. specialize (H3 c0 r Hin Hr).
  by rewrite app_nil_r in H3.
Qed.

Lemma grows_abandoned_ring E c w : grows w (abandoned E c w).
Proof. split; cbn; [by eexists|done|done]. Qed.

(** Every call keeps the invariant and only adds to the store. *)
Lemma run_inv E o w :
  inv w →
  inv (after (run E o w) w) ∧ grows w (after (run E o w) w).
Proof.
  intros Hinv. pose proof Hinv as [Hwf Hb].
  assert (∀ f, mu (f (mgr w)) = false →
               metadata (f (mgr w)) = metadata (mgr w) →
               wf (with_mgr f w) ∧ grows w (with_mgr f w)) as Hmgr.
  { intros f ? ?. split; [by apply wf_with_mgr|by apply grows_with_mgr]. }
  destruct Hb as [Hu|Hi].
  - (* init was never called *)
    destruct (inv_unbound w Hinv Hu) as [c Hub].
    pose proof Hub as [U1 U2 U3 U4 U5].
    destruct o as [s|ks|p|h|hs|h]; cbn.
    + rewrite init_first_eq by done. cbn.
      destruct (Hmgr (bind_session s)) as [? ?]; [apply Hwf|done|].
      refine (conj (conj _ _) _); [done| |done].
      right. unfold initialized; cbn. by eauto.
    + erewrite keyspaceChanged_unbound_eq by done. cbn.
      refine (conj (conj _ _) _);
        [by eapply wf_abandoned|by left|apply grows_abandoned].
    + destruct (decide (partitioner (mgr w) = p)) as [Hp|Hp].
      * rewrite setPartitioner_same_eq by done. cbn.
        split; [done|apply grows_refl].
      * erewrite setPartitioner_unbound_eq by done. cbn.
        destruct (Hmgr (set_partitioner p)) as [? ?]; [apply Hwf|done|].
        refine (conj (conj _ _) _); [by apply wf_abandoned_ring|by left|].
        eapply grows_trans; [done|apply grows_abandoned_ring].
    + destruct (cowHostList.known (ConnectAddress h) (hosts (mgr w)))
        eqn:Hk.
      * rewrite addHost_known_eq by done. cbn.
        split; [done|apply grows_refl].
      * erewrite addHost_unbound_eq by done. cbn.
        destruct (Hmgr (set_hosts (hosts (mgr w) ++ [h]))) as [? ?];
          [apply Hwf|done|].
        refine (conj (conj _ _) _); [by apply wf_abandoned_ring|by left|].
        eapply grows_trans; [done|apply grows_abandoned_ring].
    + erewrite addHosts_unbound_eq by done. cbn.
      destruct (Hmgr (set_hosts (add_all hs (hosts (mgr w))))) as [? ?];
        [apply Hwf|done|].
      refine (conj (conj _ _) _); [by apply wf_abandoned_ring|by left|].
      eapply grows_trans; [done|apply grows_abandoned_ring].
    + destruct (cowHostList.known (ConnectAddress h) (hosts (mgr w)))
        eqn:Hk.
      * erewrite removeHost_unbound_eq by done. cbn.
        destruct (Hmgr (set_hosts
          (cowHostList.remove (ConnectAddress h) (hosts (mgr w))).1))
          as [? ?]; [apply Hwf|done|].
        refine (conj (conj _ _) _); [by apply wf_abandoned_ring|by left|].
        eapply grows_trans; [done|apply grows_abandoned_ring].
      * rewrite removeHost_unknown_eq by done. cbn.
        split; [done|apply grows_refl].
  - (* the collaborators are bound *)
    destruct (inv_ready w Hinv Hi) as (s1 & s2 & lg & c & old & Hr).
    pose proof Hr as [R1 R2 R3 R4 R5 R6].
    destruct o as [s|ks|p|h|hs|h]; cbn.
    + rewrite init_again_eq by (done || by eexists). cbn.
      split; [done|apply grows_refl].
    + erewrite keyspaceChanged_eq by done. cbn.
      refine (conj (conj _ _) _);
        [by apply wf_publish|by right|apply grows_publish].
    + destruct (decide (partitioner (mgr w) = p)) as [Hp|Hp].
      * rewrite setPartitioner_same_eq by done. cbn.
        split; [done|apply grows_refl].
      * erewrite setPartitioner_changed_eq by done. cbn.
        destruct (Hmgr (set_partitioner p)) as [? ?]; [apply Hwf|done|].
        refine (conj (conj _ _) _); [by apply wf_rebuilt|by right|].
        eapply grows_trans; [done|apply grows_rebuilt].
    + destruct (cowHostList.known (ConnectAddress h) (hosts (mgr w)))
        eqn:Hk.
      * rewrite addHost_known_eq by done. cbn.
        split; [done|apply grows_refl].
      * erewrite addHost_new_eq by done. cbn.
        destruct (Hmgr (set_hosts (hosts (mgr w) ++ [h]))) as [? ?];
          [apply Hwf|done|].
        refine (conj (conj _ _) _); [by apply wf_rebuilt|by right|].
        eapply grows_trans; [done|apply grows_rebuilt].
    + erewrite addHosts_eq by done. cbn.
      destruct (Hmgr (set_hosts (add_all hs (hosts (mgr w))))) as [? ?];
        [apply Hwf|done|].
      refine (conj (conj _ _) _); [by apply wf_rebuilt|by right|].
      eapply grows_trans; [done|apply grows_rebuilt].
    + destruct (cowHostList.known (ConnectAddress h) (hosts (mgr w)))
        eqn:Hk.
      * erewrite removeHost_known_eq by done. cbn.
        destruct (Hmgr (set_hosts
          (cowHostList.remove (ConnectAddress h) (hosts (mgr w))).1))
          as [? ?]; [apply Hwf|done|].
        refine (conj (conj _ _) _); [by apply wf_rebuilt|by right|].
        eapply grows_trans; [done|apply grows_rebuilt].
      * rewrite removeHost_unknown_eq by done. cbn.
        split; [done|apply grows_refl].
Qed.


(** * The operations in closed form *)

Lemma serving_ready w s1 s2 lg ring g :
  serving w s1 s2 lg ring g →
  ∃ c, ready w s1 s2 lg c g ∧ tokenRing c = ring.
Proof.
  intros [H1 H2 H3 H4 H5]. unfold previous, snapshot in H5.
  assert (∃ c, current w = Some c ∧ map_of w (replicas c) = Some g
               ∧ tokenRing c = ring) as (c & ? & ? & ?).
  { unfold current, map_of.
    destruct (getMetadataReadOnly (mgr w)) as [p|].
    - destruct (structs w !! p) as [c|]; [|done]. cbn in H5.
      exists c. destruct (replicas c) as [r|]; cbn in H5.
      + destruct (maps w !! r); cbn in H5; by simplify_eq.
      + by simplify_eq.
    - exists zeroClusterMetadata. by simplify_eq. }
  by exists c.
Qed.

Lemma idle_unbound_world w : idle w → ∃ c, unbound w c.
Proof.
  intros [(H1 & H2 & H3) H4 [v H5]]. unfold previous, snapshot in H5.
  assert (∃ c, current w = Some c) as [c Hc].
  { unfold current. destruct (getMetadataReadOnly (mgr w)) as [p|].
    - destruct (structs w !! p) as [c|]; [by eexists|done].
    - by eexists. }
  by exists c.
Qed.

Lemma published_publish ring g lg lines w :
  published (publish ring g lg lines w) = Some (ring, g).
Proof.
  unfold published, snapshot, publish; cbn.
  rewrite lookup_snoc_last; cbn. by rewrite lookup_snoc_last.
Qed.

(** A call that reaches the block publishes one new snapshot: the ring
    left by [resetTokenRing] (if it ran) and the map built by
    [updateReplicas]. *)
Lemma run_updates_eq E o w s1 s2 lg ring g :
  serving w s1 s2 lg ring g →
  updates o (mgr w) = true →
  run E o w
  = Ret tt (publish (working_ring E o w ring)
              (new_replicas E s1 (target_keyspace E o s2)
                 (working_ring E o w ring) g)
              lg
              (working_log E o w
               ++ strategy_log E s1 (target_keyspace E o s2))
              (prepared o w)).
Proof.
  intros Hs Hu. destruct (serving_ready _ _ _ _ _ _ Hs) as (c & Hr & <-).
  assert (prepared (KeyspaceChanged "") w = w) as Hid.
  { by destruct w as [[] ? ? ?]. }
  destruct o as [s|ks|p|h|hs|h]; cbn in Hu |- *.
  - done.
  - erewrite keyspaceChanged_eq by done.
    unfold working_ring, working_log, prepared in *; cbn in *.
    by rewrite Hid.
  - apply bool_decide_eq_true in Hu.
    erewrite setPartitioner_changed_eq by done.
    unfold rebuilt, working_ring, working_log, prepared; cbn.
    by destruct w as [[] ? ? ?].
  - apply negb_true_iff in Hu. erewrite addHost_new_eq by done.
    unfold rebuilt, working_ring, working_log, prepared, publish,
      with_mgr; cbn.
    unfold cowHostList.add. rewrite Hu. by destruct w as [[] ? ? ?].
  - erewrite addHosts_eq by done.
    unfold rebuilt, working_ring, working_log, prepared; cbn.
    by destruct w as [[] ? ? ?].
  - erewrite removeHost_known_eq by done.
    unfold rebuilt, working_ring, working_log, prepared, publish,
      with_mgr; cbn.
    by destruct w as [[] ? ? ?].
Qed.

(** A call that does not reach the block changes nothing. *)
Lemma run_skips_eq E o w :
  mu (mgr w) = false →
  updates o (mgr w) = false →
  (∀ s, o ≠ Init s) →
  run E o w = Ret tt w.
Proof.
  intros Hmu Hu Hni. destruct o as [s|ks|p|h|hs|h]; cbn in Hu |- *.
  - by destruct (Hni s).
  - done.
  - apply bool_decide_eq_false in Hu.
    apply setPartitioner_same_eq; [done|].
    by destruct (decide (partitioner (mgr w) = p)); [|destruct Hu].
  - apply negb_false_iff in Hu. by apply addHost_known_eq.
  - done.
  - by apply removeHost_unknown_eq.
Qed.

Lemma run_unbound_eq E o w :
  idle w →
  updates o (mgr w) = true →
  ∃ w', run E o w = Panic (unbound_panic E o w) w'
        ∧ metadata (mgr w') = metadata (mgr w)
        ∧ bindings (mgr w') = bindings (mgr w)
        ∧ hosts (mgr w') = hosts_after o (hosts (mgr w))
        ∧ partitioner (mgr w')
          = partitioner_after o (partitioner (mgr w))
        ∧ (resets_ring o = true → maps w' = maps w).
Proof.
  intros Hi Hu. destruct (idle_unbound_world w Hi) as [c Hub].
  pose proof Hub as [U1 U2 U3 U4 U5].
  destruct o as [s|ks|p|h|hs|h]; cbn in Hu |- *;
    unfold unbound_panic; cbn.
  - done.
  - rewrite (keyspaceChanged_unbound_eq E ks w c) by done.
    eexists. split; [done|]. by cbn.
  - apply bool_decide_eq_true in Hu.
    rewrite (setPartitioner_unbound_eq E p w c) by done.
    eexists. split; [done|]. by cbn.
  - apply negb_true_iff in Hu.
    rewrite (addHost_unbound_eq E h w c) by done.
    unfold cowHostList.add. rewrite Hu. cbn.
    eexists. split; [done|]. by cbn.
  - rewrite (addHosts_unbound_eq E hs w c) by done.
    eexists. split; [done|]. by cbn.
  - rewrite (removeHost_unbound_eq E h w c) by done.
    eexists. split; [done|]. by cbn.
Qed.


(** * Call sequences *)

Lemma exec_app t1 t2 w : exec (t1 ++ t2) w = exec t2 (exec t1 w).
Proof.
  revert w. induction t1 as [|[E o] t1 IH]; intros w; cbn; [done|].
  apply IH.
Qed.

Lemma exec_inv t w : inv w → inv (exec t w) ∧ grows w (exec t w).
Proof.
  revert w. induction t as [|[E o] t IH]; intros w Hinv; cbn.
  - split; [done|apply grows_refl].
  - destruct (run_inv E o w Hinv) as [Hinv' Hg].
    destruct (IH _ Hinv') as [? ?].
    split; [done|]. by eapply grows_trans.
Qed.

Lemma ready_serving w s1 s2 lg c old :
  ready w s1 s2 lg c old → serving w s1 s2 lg (tokenRing c) old.
Proof.
  intros [H1 H2 H3 H4 H5 H6]. split; try done.
  unfold previous, snapshot, current, map_of in *.
  destruct (getMetadataReadOnly (mgr w)) as [p|].
  - rewrite H5. cbn. destruct (replicas c) as [r|]; [by rewrite H6|].
    by injection H6 as <-.
  - injection H5 as <-. cbn in H6. by injection H6 as <-.
Qed.

Lemma inv_serving w :
  inv w → initialized (mgr w) →
  ∃ s1 s2 lg ring g, serving w s1 s2 lg ring g.
Proof.
  intros Hinv Hi.
  destruct (inv_ready w Hinv Hi) as (s1 & s2 & lg & c & old & Hr).
  exists s1, s2, lg, (tokenRing c), old. by apply ready_serving.
Qed.

Lemma inv_idle w : inv w → uninitialized (mgr w) → idle w.
Proof.
  intros [Hwf _] Hu. destruct (wf_current w Hwf) as (c & old & Hc & Hold).
  split; [done|apply Hwf|].
  exists (tokenRing c, old).
  unfold previous, snapshot, current, map_of in *.
  destruct (getMetadataReadOnly (mgr w)) as [p|].
  - rewrite Hc. cbn. destruct (replicas c) as [r|]; [by rewrite Hold|].
    by injection Hold as <-.
  - injection Hc as <-. cbn in Hold. by injection Hold as <-.
Qed.

(** Only [init] writes the three collaborator fields. *)
Lemma run_bindings E o w :
  inv w → initialized (mgr w) →
  bindings (mgr (after (run E o w) w)) = bindings (mgr w).
Proof.
  intros Hinv Hi.
  destruct (inv_serving w Hinv Hi) as (s1 & s2 & lg & ring & g & Hs).
  pose proof Hs as [H1 H2 H3 H4 H5].
  destruct (updates o (mgr w)) eqn:Hu.
  - rewrite (run_updates_eq E o w s1 s2 lg ring g Hs Hu). by cbn.
  - destruct o as [s| | | | |];
      try (rewrite run_skips_eq by done; done).
    cbn. rewrite init_again_eq by (done || by eexists). done.
Qed.

Lemma exec_bindings t w :
  inv w → initialized (mgr w) →
  bindings (mgr (exec t w)) = bindings (mgr w).
Proof.
  revert w. induction t as [|[E o] t IH]; intros w Hinv Hi; cbn; [done|].
  pose proof (run_bindings E o w Hinv Hi) as Hb.
  rewrite IH; [done|by apply run_inv|].
  destruct Hi as ([a Ha] & [b Hb'] & [c Hc]).
  unfold bindings in Hb. rewrite Ha, Hb', Hc in Hb.
  injection Hb as E1 E2 E3. unfold initialized. rewrite E1, E2, E3.
  by eauto.
Qed.


(** * The properties of the specification *)

(** C1. Once a snapshot has been published, no later operation changes
    what is read through it: for every call sequence [t1] that publishes
    the pointer [p] and every continuation [t2], the ring and the replica
    map seen through [p] after [t2] are those seen when [t1] ended.  The
    working copy a later call obtains from [getMetadataForUpdate] is a new
    object, never one of the published ones, and it starts as a copy of
    the current snapshot. *)
Theorem published_snapshot_is_immutable
    t1 t2 (p : ptr) :
  let w1 := exec t1 freshWorld in
  let w2 := exec t2 w1 in
  p ∈ metadata (mgr w1) →
  is_Some (snapshot w1 p)
  ∧ snapshot w2 p = snapshot w1 p
  ∧ ∃ c meta w1',
      current w1 = Some c
      ∧ getMetadataForUpdate w1 = Ret meta w1'
      ∧ (meta ∉ metadata (mgr w1))
      ∧ structs w1' = structs w1 ++ [c]
      ∧ maps w1' = maps w1
      ∧ snapshot w1' p = snapshot w1 p.
Proof.
  intros w1 w2 Hp.
  destruct (exec_inv t1 _ inv_fresh) as [Hinv1 _].
  fold w1 in Hinv1. destruct (exec_inv t2 w1 Hinv1) as [_ Hg].
  fold w2 in Hg. pose proof Hinv1 as [Hwf _].
  pose proof (wf_published _ Hwf p Hp) as Hlt.
  destruct (snapshot_grows w1 w2 p Hwf Hg Hlt) as [Heq Hsome].
  split; [done|]. split; [done|].
  destruct (wf_current w1 Hwf) as (c & old & Hc & Hold).
  exists c, (length (structs w1)), (with_structs (structs w1 ++ [c]) w1).
  split; [done|]. split; [by apply getMetadataForUpdate_eq|].
  split.
  { intros Hin. pose proof (wf_published _ Hwf _ Hin). lia. }
  split; [done|]. split; [done|].
  apply snapshot_grows; [done| |done].
  split; cbn; [by eexists|done|done].
Qed.

(** C2. [keyspaceChanged] for the keyspace [ks1] publishes a snapshot
    with the ring of the snapshot it started from; every other keyspace
    keeps the replica map it had, and only the entry of [ks1] is
    computed. *)
Theorem keyspaceChanged_is_scoped
    E (ks1 : string) w (s1 s2 : Session)
    (lg : StdLogger) (ring : option TokenRing)
    (g : gmap string tokenRingReplicas) :
  serving w s1 s2 lg ring g →
  ∃ w' g',
    keyspaceChanged E ks1 w = Ret tt w'
    ∧ publishes w' = S (publishes w)
    ∧ published w' = Some (ring, g')
    ∧ (∀ ks2, ks2 ≠ ks1 → g' !! ks2 = g !! ks2)
    ∧ g' !! ks1 = target_entry E s1 ks1 ring.
Proof.
  intros Hs.
  pose proof (run_updates_eq E (KeyspaceChanged ks1) w s1 s2 lg ring g
                Hs eq_refl) as Hrun.
  cbn in Hrun. eexists _, _. split; [exact Hrun|].
  split; [done|]. split; [apply published_publish|].
  split.
  - intros ks2 Hne. rewrite new_replicas_lookup.
    by rewrite bool_decide_false.
  - rewrite new_replicas_lookup. by rewrite bool_decide_true.
Qed.

(** C3. When a call reaches [updateReplicas] and the resolver fails for
    the target keyspace, or [getStrategy] returns no strategy for it, the
    call still returns and publishes once; the published map has no
    entry for the target keyspace, every other keyspace has the entry it
    had, and the ring is the one the working copy carried into
    [updateReplicas]. *)
Theorem unresolved_keyspace_is_omitted
    E (o : op) w (s1 s2 : Session) (lg : StdLogger)
    (ring : option TokenRing) (g : gmap string tokenRingReplicas) :
  serving w s1 s2 lg ring g →
  updates o (mgr w) = true →
  ((∃ err, Session_KeyspaceMetadata E s1 (target_keyspace E o s2)
           = inr err)
   ∨ (∃ ks, Session_KeyspaceMetadata E s1 (target_keyspace E o s2)
            = inl ks ∧ (getStrategy E ks).1 = None)) →
  ∃ w' g',
    run E o w = Ret tt w'
    ∧ publishes w' = S (publishes w)
    ∧ published w' = Some (working_ring E o w ring, g')
    ∧ g' !! target_keyspace E o s2 = None
    ∧ (∀ ks, ks ≠ target_keyspace E o s2 → g' !! ks = g !! ks).
Proof.
  intros Hs Hu Hfail.
  pose proof (run_updates_eq E o w s1 s2 lg ring g Hs Hu) as Hrun.
  eexists _, _. split; [exact Hrun|].
  split; [done|]. split; [apply published_publish|].
  split.
  - rewrite new_replicas_lookup, bool_decide_true by done.
    unfold target_entry.
    destruct Hfail as [[err ->]|(ks & -> & ->)]; done.
  - intros ks Hne. rewrite new_replicas_lookup.
    by rewrite bool_decide_false.
Qed.


Lemma known_snoc h l :
  cowHostList.known (ConnectAddress h) (l ++ [h]) = true.
Proof.
  unfold cowHostList.known. rewrite existsb_app. cbn.
  rewrite String.eqb_refl. by rewrite orb_true_r.
Qed.

Lemma add_all_known hs l :
  (∀ h, h ∈ hs → cowHostList.known (ConnectAddress h) l = true) →
  add_all hs l = l.
Proof.
  induction hs as [|h hs IH]; intros Hk; cbn; [done|].
  unfold cowHostList.add. rewrite (Hk h) by by left. cbn.
  apply IH. intros h' Hin. apply Hk. by right.
Qed.

Lemma ring_after_failed E p hs err ring :
  newTokenRing E p hs = inr err → ring_after E p hs ring = ring.
Proof.
  intros H. unfold ring_after. rewrite H. by destruct (String.eqb p "").
Qed.

(** C4 (as amended). A degraded-but-recoverable error does not stop the
    call: it returns, the host list and the partitioner are updated and
    one snapshot is published.  When the ring cannot be rebuilt the new
    snapshot keeps the ring of the snapshot the call started from (nil if
    there was none); when the target keyspace cannot be resolved its
    entry is left out of the new map; every other keyspace keeps its
    entry. *)
Theorem degraded_errors_are_absorbed
    E (o : op) w (s1 s2 : Session) (lg : StdLogger)
    (ring : option TokenRing) (g : gmap string tokenRingReplicas) :
  serving w s1 s2 lg ring g →
  updates o (mgr w) = true →
  ∃ w' ring' g',
    run E o w = Ret tt w'
    ∧ publishes w' = S (publishes w)
    ∧ published w' = Some (ring', g')
    ∧ hosts (mgr w') = hosts_after o (hosts (mgr w))
    ∧ partitioner (mgr w') = partitioner_after o (partitioner (mgr w))
    ∧ (∀ err, newTokenRing E (partitioner (mgr w')) (hosts (mgr w'))
              = inr err → ring' = ring)
    ∧ (∀ err, Session_KeyspaceMetadata E s1 (target_keyspace E o s2)
              = inr err → g' !! target_keyspace E o s2 = None)
    ∧ g' !! target_keyspace E o s2
      = target_entry E s1 (target_keyspace E o s2) ring'
    ∧ (∀ ks, ks ≠ target_keyspace E o s2 → g' !! ks = g !! ks).
Proof.
  intros Hs Hu.
  pose proof (run_updates_eq E o w s1 s2 lg ring g Hs Hu) as Hrun.
  eexists _, _, _. split; [exact Hrun|].
  split; [done|]. split; [apply published_publish|].
  split; [done|]. split; [done|].
  assert (∀ ring', new_replicas E s1 (target_keyspace E o s2) ring' g
                   !! target_keyspace E o s2
                   = target_entry E s1 (target_keyspace E o s2) ring')
    as Htarget.
  { intros ring'. by rewrite new_replicas_lookup, bool_decide_true. }
  split; [|split; [|split]].
  - intros err Herr. cbn in Herr. unfold working_ring.
    destruct (resets_ring o); [|done].
    by eapply ring_after_failed.
  - intros err Herr. rewrite Htarget. unfold target_entry.
    by rewrite Herr.
  - apply Htarget.
  - intros ks Hne. rewrite new_replicas_lookup.
    by rewrite bool_decide_false.
Qed.

(** C5. Adding a host that is not yet known publishes once; adding the
    same host again returns without changing anything, so the slot still
    holds the same snapshot reference and no further publish is
    counted. *)
Theorem addHost_twice_publishes_once
    E E' (host : HostInfo) w (s1 s2 : Session)
    (lg : StdLogger) (ring : option TokenRing)
    (g : gmap string tokenRingReplicas) :
  serving w s1 s2 lg ring g →
  cowHostList.known (ConnectAddress host) (hosts (mgr w)) = false →
  ∃ w1,
    addHost E host w = Ret tt w1
    ∧ publishes w1 = S (publishes w)
    ∧ addHost E' host w1 = Ret tt w1
    ∧ getMetadataReadOnly (mgr (after (addHost E' host w1) w1))
      = getMetadataReadOnly (mgr w1)
    ∧ publishes (after (addHost E' host w1) w1) = S (publishes w).
Proof.
  intros Hs Hk.
  assert (updates (AddHost host) (mgr w) = true) as Hu.
  { cbn. by rewrite Hk. }
  pose proof (run_updates_eq E (AddHost host) w s1 s2 lg ring g Hs Hu)
    as Hrun.
  cbn [run] in Hrun.
  match type of Hrun with _ = Ret _ ?x => set (w1 := x) in * end.
  assert (addHost E' host w1 = Ret tt w1) as H2.
  { apply addHost_known_eq; [done|]. cbn. unfold cowHostList.add.
    rewrite Hk. cbn. apply known_snoc. }
  exists w1. rewrite H2. by cbn.
Qed.

(** C6. When [newTokenRing] fails in a call that goes through
    [resetTokenRing], the line "Unable to update the token ring due to
    error: " followed by the error is printed to the logger, the published
    snapshot carries the ring of the snapshot the call started from (nil
    if there was none), and the publish takes place with the replica map
    recomputed by [updateReplicas]. *)
Theorem failed_ring_rebuild_keeps_ring
    E (o : op) w (s1 s2 : Session) (lg : StdLogger)
    (ring : option TokenRing) (g : gmap string tokenRingReplicas)
    (err : error) :
  serving w s1 s2 lg ring g →
  updates o (mgr w) = true →
  resets_ring o = true →
  partitioner_after o (partitioner (mgr w)) ≠ ""%string →
  newTokenRing E (partitioner_after o (partitioner (mgr w)))
    (hosts_after o (hosts (mgr w))) = inr err →
  ∃ w' g',
    run E o w = Ret tt w'
    ∧ printed w'
      = printed w
        ++ (lg, ("Unable to update the token ring due to error: "
                 ++ err)%string)
           :: ((lg,.) <$> strategy_log E s1 (target_keyspace E o s2))
    ∧ publishes w' = S (publishes w)
    ∧ published w' = Some (ring, g')
    ∧ g' !! target_keyspace E o s2
      = target_entry E s1 (target_keyspace E o s2) ring
    ∧ (∀ ks, ks ≠ target_keyspace E o s2 → g' !! ks = g !! ks).
Proof.
  intros Hs Hu Hr Hp Herr.
  pose proof (run_updates_eq E o w s1 s2 lg ring g Hs Hu) as Hrun.
  assert (working_ring E o w ring = ring) as Hring.
  { unfold working_ring. rewrite Hr. by eapply ring_after_failed. }
  assert (working_log E o w = [ringErrorLine err]) as Hlog.
  { unfold working_log, ring_log. rewrite Hr. cbn. rewrite Herr.
    apply String.eqb_neq in Hp. by rewrite Hp. }
  rewrite Hring, Hlog in Hrun.
  eexists _, _. split; [exact Hrun|].
  split; [done|]. split; [done|]. split; [apply published_publish|].
  split.
  - by rewrite new_replicas_lookup, bool_decide_true.
  - intros ks Hne. rewrite new_replicas_lookup.
    by rewrite bool_decide_false.
Qed.

(** C7. For every list of hosts, [addHosts] adds each host, then goes
    through [resetTokenRing] and [updateReplicas] for the active keyspace
    and publishes exactly one new snapshot, also when the list is empty
    or every host in it was already known (the host list is then
    unchanged). *)
Theorem addHosts_always_publishes
    E (hs : list HostInfo) w (s1 s2 : Session)
    (lg : StdLogger) (ring : option TokenRing)
    (g : gmap string tokenRingReplicas) :
  serving w s1 s2 lg ring g →
  ∃ w' ring' g',
    addHosts E hs w = Ret tt w'
    ∧ hosts (mgr w') = add_all hs (hosts (mgr w))
    ∧ ((∀ h, h ∈ hs →
             cowHostList.known (ConnectAddress h) (hosts (mgr w)) = true) →
       hosts (mgr w') = hosts (mgr w))
    ∧ publishes w' = S (publishes w)
    ∧ getMetadataReadOnly (mgr w') = Some (length (structs w))
    ∧ published w' = Some (ring', g')
    ∧ ring' = ring_after E (partitioner (mgr w)) (hosts (mgr w')) ring
    ∧ (∀ r, partitioner (mgr w) ≠ ""%string →
            newTokenRing E (partitioner (mgr w)) (hosts (mgr w')) = inl r →
            ring' = Some r)
    ∧ g' !! Session_cfg_Keyspace E s2
      = target_entry E s1 (Session_cfg_Keyspace E s2) ring'
    ∧ (∀ ks, ks ≠ Session_cfg_Keyspace E s2 → g' !! ks = g !! ks).
Proof.
  intros Hs.
  pose proof (run_updates_eq E (AddHosts hs) w s1 s2 lg ring g Hs eq_refl)
    as Hrun.
  cbn in Hrun. eexists _, _, _. split; [exact Hrun|].
  split; [done|]. split; [intros Hk; cbn; by apply add_all_known|].
  split; [done|]. split; [done|]. split; [apply published_publish|].
  split; [done|]. split; [|split].
  - intros r Hp Hr. unfold working_ring, ring_after. cbn.
    cbn in Hr. rewrite Hr. apply String.eqb_neq in Hp. by rewrite Hp.
  - by rewrite new_replicas_lookup, bool_decide_true.
  - intros ks Hne. rewrite new_replicas_lookup.
    by rewrite bool_decide_false.
Qed.


Lemma init_inv s w : inv w → inv (after (init s w) w).
Proof.
  intros [Hwf [Hu|Hi]].
  - rewrite init_first_eq by (apply Hwf || apply Hu). cbn. split.
    + by apply wf_with_mgr; [|apply Hwf|].
    + right. unfold initialized; cbn. by eauto.
  - rewrite init_again_eq by (apply Hwf || apply Hi). cbn.
    split; [done|by right].
Qed.

(** C8. On a manager that has been initialised, every further call of
    [init], whatever calls were made in between, panics with the
    sharing message and leaves the manager as it was; the resolver, the
    keyspace name function and the logger stay those bound by the first
    call. *)
Theorem init_again_always_panics
    t t' (s1 s2 : Session) w1 :
  init s1 (exec t freshWorld) = Ret tt w1 →
  init s2 (exec t' w1) = Panic (PanicString initPanicMessage) (exec t' w1)
  ∧ bindings (mgr (exec t' w1))
    = (Some s1, Some s1, Some (session_logger s1)).
Proof.
  intros Hinit.
  destruct (exec_inv t _ inv_fresh) as [Hinv _].
  pose proof (init_inv s1 _ Hinv) as Hinv1.
  rewrite Hinit in Hinv1. cbn in Hinv1.
  assert (bindings (mgr w1) = (Some s1, Some s1, Some (session_logger s1)))
    as Hb1.
  { destruct Hinv as [Hwf [Hu|Hi]].
    - rewrite init_first_eq in Hinit by (apply Hwf || apply Hu).
      by injection Hinit as <-.
    - rewrite init_again_eq in Hinit by (apply Hwf || apply Hi). done. }
  assert (initialized (mgr w1)) as Hi1.
  { injection Hb1 as E1 E2 E3. unfold initialized.
    rewrite E1, E2, E3. by eauto. }
  destruct (exec_inv t' w1 Hinv1) as [[Hwf2 _] _].
  pose proof (exec_bindings t' w1 Hinv1 Hi1) as Hb2.
  rewrite Hb1 in Hb2. split; [|done].
  apply init_again_eq; [apply Hwf2|].
  injection Hb2 as E1 _ _. rewrite E1. by eexists.
Qed.

(** C10 (as amended). A call that reaches the copy-recompute-publish
    block on a manager on which [init] was never called panics, and
    nothing is published.  In [keyspaceChanged] the panic is the call of
    the nil resolver inside [updateReplicas]; in the other four calls
    [updateReplicas] is not entered: the panic is the call of the nil
    keyspace name function that computes its argument, or, when the
    ring rebuild fails first, the call of the nil logger. *)
Theorem calls_before_init_panic E (o : op) w :
  idle w →
  updates o (mgr w) = true →
  ∃ p w',
    run E o w = Panic p w'
    ∧ publishes w' = publishes w
    ∧ (resets_ring o = false → p = NilFuncCall "getKeyspaceMetadata")
    ∧ (resets_ring o = true →
       maps w' = maps w
       ∧ p = match newTokenRing E (partitioner (mgr w'))
                     (hosts (mgr w')) with
             | inr _ =>
                 if String.eqb (partitioner (mgr w')) ""
                 then NilFuncCall "getKeyspaceName"
                 else NilInterfaceCall "logger"
             | inl _ => NilFuncCall "getKeyspaceName"
             end).
Proof.
  intros Hi Hu.
  destruct (run_unbound_eq E o w Hi Hu)
    as (w' & Hrun & Hmd & Hb & Hh & Hp & Hmaps).
  exists (unbound_panic E o w), w'. split; [done|].
  split; [unfold publishes; by rewrite Hmd|].
  unfold unbound_panic. split.
  - by intros ->.
  - intros Hr. rewrite Hr. split; [by apply Hmaps|].
    unfold rebuild_panic. rewrite Hh, Hp. cbn.
    destruct (String.eqb _ ""); [|done].
    by destruct (newTokenRing E _ _).
Qed.


(** * Further properties of the operations *)

Lemma snapshot_publish_head ring g lg lines w :
  snapshot (publish ring g lg lines w) (length (structs w))
  = Some (ring, g).
Proof.
  unfold snapshot, publish; cbn.
  rewrite lookup_snoc_last; cbn. by rewrite lookup_snoc_last.
Qed.

(** After a publish the manager is at rest again, and the next working
    copy starts from what was published. *)
Lemma serving_publish o w s1 s2 lg ring g ring' g' lines :
  serving w s1 s2 lg ring g →
  serving (publish ring' g' lg lines (prepared o w)) s1 s2 lg ring' g'.
Proof.
  intros [H1 H2 H3 H4 H5]. split; try done.
  unfold previous. cbn.
  apply (snapshot_publish_head ring' g' lg lines (prepared o w)).
Qed.

Lemma skips_keep o (m : clusterMetadataManager) :
  updates o m = false →
  hosts_after o (hosts m) = hosts m
  ∧ partitioner_after o (partitioner m) = partitioner m.
Proof.
  destruct o as [s|ks|p|h|hs|h]; cbn; try done.
  - intros Hp. apply bool_decide_eq_false in Hp. split; [done|].
    by destruct (decide (partitioner m = p)); [|destruct Hp].
  - intros Hk. apply negb_false_iff in Hk. unfold cowHostList.add.
    by rewrite Hk.
  - intros Hk. unfold cowHostList.remove. by rewrite Hk.
Qed.

(** One call on an initialised manager at rest: it returns, and the
    manager is at rest again. *)
Lemma run_serving E o w s1 s2 lg ring g :
  serving w s1 s2 lg ring g →
  is_Init o = false →
  ∃ w' ring' g',
    run E o w = Ret tt w' ∧ serving w' s1 s2 lg ring' g'
    ∧ hosts (mgr w') = hosts_after o (hosts (mgr w))
    ∧ partitioner (mgr w')
      = partitioner_after o (partitioner (mgr w)).
Proof.
  intros Hs Hni. destruct (updates o (mgr w)) eqn:Hu.
  - rewrite (run_updates_eq E o w s1 s2 lg ring g Hs Hu).
    eexists _, _, _. split; [done|]. split; [by eapply serving_publish|].
    by cbn.
  - destruct (skips_keep o (mgr w) Hu) as [Hh Hp].
    rewrite run_skips_eq; [|apply Hs|done|by intros s ->].
    exists w, ring, g. by rewrite Hh, Hp.
Qed.

(** X1. On an initialised manager every sequence of calls other than
    [init] returns normally, whatever the resolver, [getStrategy] and
    [newTokenRing] answer; the host list and the partitioner are those the
    calls asked for. *)
Theorem initialised_manager_never_panics t w s1 s2 lg ring g :
  serving w s1 s2 lg ring g →
  Forall (λ eo, is_Init eo.2 = false) t →
  returns t w
  ∧ hosts (mgr (exec t w)) = hosts_after_all t (hosts (mgr w))
  ∧ partitioner (mgr (exec t w))
    = partitioner_after_all t (partitioner (mgr w))
  ∧ bindings (mgr (exec t w)) = bindings (mgr w).
Proof.
  intros Hs Ht. revert w ring g Hs.
  induction Ht as [|[E o] t Ho Ht IH]; intros w ring g Hs; cbn.
  - done.
  - destruct (run_serving E o w s1 s2 lg ring g Hs Ho)
      as (w' & ring' & g' & Hrun & Hs' & Hh & Hp).
    destruct (IH w' ring' g' Hs') as (Hret & Hh' & Hp' & Hb').
    rewrite Hrun. cbn. split; [by exists w'|].
    unfold hosts_after_all, partitioner_after_all in *. cbn.
    rewrite Hh', Hp', Hb', Hh, Hp. split; [done|]. split; [done|].
    destruct Hs as [A1 A2 A3 _ _], Hs' as [B1 B2 B3 _ _].
    unfold bindings. by rewrite A1, A2, A3, B1, B2, B3.
Qed.


Lemma run_unbound_shape E o w c :
  unbound w c →
  updates o (mgr w) = true →
  ∃ p w' c', run E o w = Panic p w' ∧ copy_of E w w' c c'.
Proof.
  intros Hub Hu. pose proof Hub as [U1 U2 U3 U4 U5].
  destruct o as [s|ks|p|h|hs|h]; cbn in Hu |- *.
  - done.
  - rewrite (keyspaceChanged_unbound_eq E ks w c) by done.
    eexists _, _, c. split; [done|]. split; [done|by left].
  - apply bool_decide_eq_true in Hu.
    rewrite (setPartitioner_unbound_eq E p w c) by done.
    eexists _, _, _. split; [done|]. split; [done|by right].
  - apply negb_true_iff in Hu.
    rewrite (addHost_unbound_eq E h w c) by done.
    eexists _, _, _. split; [done|]. split; [done|by right].
  - rewrite (addHosts_unbound_eq E hs w c) by done.
    eexists _, _, _. split; [done|]. split; [done|by right].
  - rewrite (removeHost_unbound_eq E h w c) by done.
    eexists _, _, _. split; [done|]. split; [done|by right].
Qed.

(** The shape of the world after any call on a world reached from
    [freshWorld]. *)
Lemma run_shape E o w :
  inv w →
  ∃ w' c,
    (run E o w = Ret tt w' ∨ ∃ p, run E o w = Panic p w')
    ∧ hosts (mgr w') = hosts_after o (hosts (mgr w))
    ∧ partitioner (mgr w') = partitioner_after o (partitioner (mgr w))
    ∧ current w = Some c
    ∧ (structs w' = structs w ∨ ∃ c', copy_of E w w' c c').
Proof.
  intros Hinv. pose proof Hinv as [Hwf [Hb|Hb]].
  - destruct (inv_unbound w Hinv Hb) as [c Hub].
    pose proof Hub as [U1 U2 U3 U4 U5].
    destruct (updates o (mgr w)) eqn:Hu.
    + destruct (run_unbound_shape E o w c Hub Hu) as (p & w' & c' & Hrun & Hc).
      destruct (run_unbound_eq E o w (inv_idle w Hinv Hb) Hu)
        as (w'' & Hrun' & _ & _ & Hh & Hp & _).
      rewrite Hrun in Hrun'. injection Hrun' as _ <-.
      exists w', c. split; [right; by exists p|]. by eauto 10.
    + destruct (skips_keep o (mgr w) Hu) as [Hh Hp].
      destruct (is_Init o) eqn:Hi.
      * destruct o as [s| | | | |]; try done. cbn.
        rewrite init_first_eq by done.
        eexists _, c. split; [by left|]. cbn. by eauto.
      * rewrite run_skips_eq; [|done|done|by intros s ->].
        exists w, c. rewrite Hh, Hp. by eauto 10.
  - destruct (inv_serving w Hinv Hb) as (s1 & s2 & lg & ring & g & Hs).
    destruct (serving_ready _ _ _ _ _ _ Hs) as (c & [_ _ _ _ Hc _] & Hring).
    destruct (is_Init o) eqn:Hi.
    + destruct o as [s| | | | |]; try done. cbn.
      rewrite init_again_eq by (apply Hwf || apply Hb).
      exists w, c. split; [right; by eexists|]. cbn. by eauto.
    + destruct (updates o (mgr w)) eqn:Hu.
      * rewrite (run_updates_eq E o w s1 s2 lg ring g Hs Hu).
        eexists _, c. split; [by left|]. cbn.
        split; [done|]. split; [done|]. split; [done|]. right.
        eexists. split; [done|]. cbn. rewrite Hring.
        unfold working_ring. destruct (resets_ring o); [by right|by left].
      * destruct (skips_keep o (mgr w) Hu) as [Hh Hp].
        rewrite run_skips_eq; [|apply Hwf|done|by intros s ->].
        exists w, c. rewrite Hh, Hp. by eauto 10.
Qed.


(** X2. The mutex is free after every call, also after one that panics
    (the unlock is deferred), so in every world reached from the zero
    manager no call blocks: it returns or it panics. *)
Theorem no_call_blocks t E o :
  mu (mgr (exec t fresh0)) = false
  ∧ ∃ w', run E o (exec t fresh0) = Ret tt w'
          ∨ ∃ p, run E o (exec t fresh0) = Panic p w'.
Proof.
  destruct (exec_inv t fresh0 inv_fresh) as [Hinv _].
  split; [apply Hinv|].
  destruct (run_shape E o _ Hinv) as (w' & c & Hrun & _).
  by exists w'.
Qed.

Lemma run_before_init E o w :
  inv w → uninitialized (mgr w) → is_Init o = false →
  uninitialized (mgr (after (run E o w) w))
  ∧ metadata (mgr (after (run E o w) w)) = metadata (mgr w)
  ∧ hosts (mgr (after (run E o w) w)) = hosts_after o (hosts (mgr w))
  ∧ partitioner (mgr (after (run E o w) w))
    = partitioner_after o (partitioner (mgr w)).
Proof.
  intros Hinv Hb Hi. destruct (updates o (mgr w)) eqn:Hu.
  - destruct (run_unbound_eq E o w (inv_idle w Hinv Hb) Hu)
      as (w' & Hrun & Hmd & Hbd & Hh & Hp & _).
    rewrite Hrun. cbn. split; [|done].
    destruct Hb as (B1 & B2 & B3). unfold bindings in Hbd.
    rewrite B1, B2, B3 in Hbd. injection Hbd as E1 E2 E3.
    by unfold uninitialized.
  - destruct (skips_keep o (mgr w) Hu) as [Hh Hp].
    rewrite run_skips_eq; [|apply Hinv|done|by intros s ->].
    cbn. by rewrite Hh, Hp.
Qed.

Lemma exec_before_init t w :
  inv w → uninitialized (mgr w) →
  Forall (λ eo, is_Init eo.2 = false) t →
  uninitialized (mgr (exec t w))
  ∧ metadata (mgr (exec t w)) = metadata (mgr w)
  ∧ hosts (mgr (exec t w)) = hosts_after_all t (hosts (mgr w))
  ∧ partitioner (mgr (exec t w))
    = partitioner_after_all t (partitioner (mgr w)).
Proof.
  intros Hinv Hb Ht. revert w Hinv Hb.
  induction Ht as [|[E o] t Ho Ht IH]; intros w Hinv Hb; cbn; [done|].
  destruct (run_before_init E o w Hinv Hb Ho) as (Hb' & Hmd & Hh & Hp).
  destruct (IH _ (proj1 (run_inv E o w Hinv)) Hb') as (? & Hmd' & Hh' & Hp').
  unfold hosts_after_all, partitioner_after_all in *. cbn.
  by rewrite Hmd', Hh', Hp', Hmd, Hh, Hp.
Qed.

(** X3. As long as [init] has not been called, no sequence of calls
    publishes anything: [getMetadataReadOnly] stays nil and the
    collaborators stay nil.  The calls panic only after they have changed
    the host list or the partitioner, so these changes are kept. *)
Theorem nothing_is_published_before_init t :
  Forall (λ eo, is_Init eo.2 = false) t →
  getMetadataReadOnly (mgr (exec t fresh0)) = None
  ∧ uninitialized (mgr (exec t fresh0))
  ∧ hosts (mgr (exec t fresh0)) = hosts_after_all t cowHostList.empty
  ∧ partitioner (mgr (exec t fresh0)) = partitioner_after_all t "".
Proof.
  intros Ht.
  destruct (exec_before_init t fresh0 inv_fresh) as (Hb & Hmd & Hh & Hp);
    [done|done|].
  split; [|done]. unfold getMetadataReadOnly. by rewrite Hmd.
Qed.

Lemma current_in w c :
  current w = Some c → c ∈ structs w ∨ c = zeroClusterMetadata.
Proof.
  unfold current. destruct (getMetadataReadOnly (mgr w)) as [p|].
  - intros H. left. by eapply list_elem_of_lookup_2.
  - intros H. right. by injection H as <-.
Qed.


Lemma run_ringless E o w :
  inv w → ringless w →
  (∀ p, o = SetPartitioner p → p = ""%string) →
  ringless (after (run E o w) w).
Proof.
  intros Hinv [Hp Hnone] Ho.
  destruct (run_shape E o w Hinv)
    as (w' & c & Hrun & _ & Hp' & Hc & Hst).
  assert (after (run E o w) w = w') as ->.
  { by destruct Hrun as [->|[p ->]]. }
  assert (tokenRing c = None) as Hcn.
  { destruct (current_in w c Hc) as [Hin| ->]; [by apply Hnone|done]. }
  assert (partitioner (mgr w') = ""%string) as Hp''.
  { rewrite Hp', Hp. destruct o; try done. cbn. by apply Ho. }
  split; [done|].
  intros c0 Hin. destruct Hst as [Hst|(c' & Hst & Hring)].
  - rewrite Hst in Hin. by apply Hnone.
  - rewrite Hst in Hin. apply elem_of_app in Hin as [Hin|Hin].
    + by apply Hnone.
    + apply list_elem_of_singleton in Hin as ->.
      destruct Hring as [->| ->]; [done|].
      unfold ring_after. by rewrite Hp''.
Qed.

(** X4. While the partitioner is empty no ring is ever built: after every
    sequence of calls that never sets a non-empty partitioner, every
    snapshot object, published or not, has a nil [TokenRing()], whatever
    [newTokenRing] would answer. *)
Theorem empty_partitioner_means_nil_ring t :
  Forall (λ eo, ∀ p, eo.2 = SetPartitioner p → p = ""%string) t →
  partitioner (mgr (exec t fresh0)) = ""%string
  ∧ (∀ c, c ∈ structs (exec t fresh0) → TokenRing_of c = None)
  ∧ (∀ ring g, published (exec t fresh0) = Some (ring, g) → ring = None).
Proof.
  intros Ht.
  assert (∀ w, inv w → ringless w → ringless (exec t w)) as Hexec.
  { induction Ht as [|[E o] t Ho Ht IH]; intros w Hinv Hr; cbn; [done|].
    apply IH; [by apply run_inv|by apply run_ringless]. }
  destruct (Hexec fresh0 inv_fresh) as [Hp Hnone].
  { split; [done|]. intros c. cbn. by rewrite elem_of_nil. }
  split; [done|]. split; [done|].
  intros ring g. unfold published, snapshot.
  destruct (getMetadataReadOnly _) as [p|]; [|done]. cbn.
  destruct (structs _ !! p) as [c|] eqn:Hc; [|done]. cbn.
  intros H. rewrite <- (Hnone c) by by eapply list_elem_of_lookup_2.
  destruct (match replicas c with Some r => _ | None => _ end); [|done].
  cbn in H. by injection H as -> _.
Qed.


Lemma target_lookup E s keyspace ring g :
  new_replicas E s keyspace ring g !! keyspace
  = target_entry E s keyspace ring.
Proof. by rewrite new_replicas_lookup, bool_decide_true. Qed.

Lemma other_lookup E s keyspace ring g ks :
  ks ≠ keyspace →
  new_replicas E s keyspace ring g !! ks = g !! ks.
Proof. intros. by rewrite new_replicas_lookup, bool_decide_false. Qed.

(** X5. When a call that goes through [resetTokenRing] succeeds in every
    step, the published ring is the one [newTokenRing] builds from the
    partitioner and the host list as the call has just changed them, and
    the entry of the active keyspace is the strategy's [replicaMap] of that
    new ring, not of the previous one. *)
Theorem ring_and_replicas_follow_the_update
    E o w s1 s2 lg ring g r ks (f : placementStrategy) :
  serving w s1 s2 lg ring g →
  updates o (mgr w) = true →
  resets_ring o = true →
  partitioner_after o (partitioner (mgr w)) ≠ ""%string →
  newTokenRing E (partitioner_after o (partitioner (mgr w)))
    (hosts_after o (hosts (mgr w))) = inl r →
  Session_KeyspaceMetadata E s1 (Session_cfg_Keyspace E s2) = inl ks →
  (getStrategy E ks).1 = Some f →
  ∃ w' g',
    run E o w = Ret tt w'
    ∧ published w' = Some (Some r, g')
    ∧ g' !! Session_cfg_Keyspace E s2 = Some (f r)
    ∧ (∀ k, k ≠ Session_cfg_Keyspace E s2 → g' !! k = g !! k)
    ∧ printed w' = printed w ++ ((lg,.) <$> (getStrategy E ks).2).
Proof.
  intros Hs Hu Hr Hp Hring Hks Hf.
  pose proof (run_updates_eq E o w s1 s2 lg ring g Hs Hu) as Hrun.
  assert (target_keyspace E o s2 = Session_cfg_Keyspace E s2) as Ht.
  { by destruct o. }
  assert (working_ring E o w ring = Some r) as Hw.
  { unfold working_ring, ring_after. rewrite Hr. cbn. rewrite Hring.
    apply String.eqb_neq in Hp. by rewrite Hp. }
  assert (working_log E o w = []) as Hl.
  { unfold working_log, ring_log. rewrite Hr. cbn. rewrite Hring.
    apply String.eqb_neq in Hp. by rewrite Hp. }
  rewrite Ht, Hw, Hl in Hrun.
  eexists _, _. split; [exact Hrun|]. split; [apply published_publish|].
  split; [|split].
  - rewrite target_lookup. unfold target_entry. by rewrite Hks, Hf.
  - intros k Hk. by apply other_lookup.
  - cbn. unfold strategy_log. by rewrite Hks.
Qed.

(** X6. [updateReplicas] stores an entry for its keyspace only when the
    working copy has a ring: with a nil ring the published map has no
    entry for the target keyspace, also when the keyspace and its strategy
    resolve and also when the keyspace had an entry before. *)
Theorem no_replicas_without_a_ring E o w s1 s2 lg ring g :
  serving w s1 s2 lg ring g →
  updates o (mgr w) = true →
  working_ring E o w ring = None →
  ∃ w' g',
    run E o w = Ret tt w'
    ∧ published w' = Some (None, g')
    ∧ g' !! target_keyspace E o s2 = None
    ∧ (∀ k, k ≠ target_keyspace E o s2 → g' !! k = g !! k).
Proof.
  intros Hs Hu Hw.
  pose proof (run_updates_eq E o w s1 s2 lg ring g Hs Hu) as Hrun.
  rewrite Hw in Hrun.
  eexists _, _. split; [exact Hrun|]. split; [apply published_publish|].
  split.
  - rewrite target_lookup. unfold target_entry.
    destruct (Session_KeyspaceMetadata E s1 _) as [ks|]; [|done].
    by destruct (getStrategy E ks).1.
  - intros k Hk. by apply other_lookup.
Qed.

(** X7. Setting the partitioner back to the empty string does not clear
    the ring: [resetTokenRing] returns before [newTokenRing] is called, so
    the snapshot published by [setPartitioner] keeps the ring of the
    previous snapshot while the manager's partitioner is empty. *)
Theorem empty_partitioner_keeps_the_ring E w s1 s2 lg ring g :
  serving w s1 s2 lg ring g →
  partitioner (mgr w) ≠ ""%string →
  ∃ w' g',
    setPartitioner E "" w = Ret tt w'
    ∧ partitioner (mgr w') = ""%string
    ∧ publishes w' = S (publishes w)
    ∧ published w' = Some (ring, g')
    ∧ g' !! Session_cfg_Keyspace E s2
      = target_entry E s1 (Session_cfg_Keyspace E s2) ring
    ∧ printed w'
      = printed w
        ++ ((lg,.) <$> strategy_log E s1 (Session_cfg_Keyspace E s2)).
Proof.
  intros Hs Hp.
  assert (updates (SetPartitioner "") (mgr w) = true) as Hu.
  { cbn. by apply bool_decide_eq_true. }
  pose proof (run_updates_eq E (SetPartitioner "") w s1 s2 lg ring g Hs Hu)
    as Hrun.
  cbn [run] in Hrun. eexists _, _. split; [exact Hrun|].
  split; [done|]. split; [done|]. split; [apply published_publish|].
  split; [apply target_lookup|done].
Qed.

(** X8. The result of the [range] loop of [updateReplicas] does not
    depend on the order in which the entries of the old map are visited:
    any two orders of the same entries leave the same world. *)
Theorem range_order_is_irrelevant
    keyspace (r : mapref) (l l' : list (string * tokenRingReplicas)) g w :
  NoDup l.*1 →
  l ≡ₚ l' →
  maps w !! r = Some g →
  range_over l (λ ks replicas,
    if bool_decide (ks ≠ keyspace) then map_assign r ks replicas
    else ret tt) w
  = range_over l' (λ ks replicas,
      if bool_decide (ks ≠ keyspace) then map_assign r ks replicas
      else ret tt) w.
Proof.
  intros Hnd Hperm Hr.
  rewrite (range_over_eq keyspace r l g w Hr).
  rewrite (range_over_eq keyspace r l' g w Hr).
  assert (NoDup l'.*1) as Hnd' by by rewrite <- Hperm.
  assert (carry_over keyspace l g = carry_over keyspace l' g) as ->; [|done].
  apply map_eq. intros j. rewrite !carry_over_lookup by done.
  by rewrite (list_to_map_proper l l' Hnd Hperm).
Qed.

Lemma new_replicas_again E s keyspace ring g :
  new_replicas E s keyspace ring (new_replicas E s keyspace ring g)
  = new_replicas E s keyspace ring g.
Proof.
  apply map_eq. intros j. rewrite !new_replicas_lookup.
  by case_bool_decide.
Qed.

(** X9. [keyspaceChanged] has no change detection: called again for the
    same keyspace with the same answers of the collaborators it publishes
    a snapshot with the same ring and the same replica map, but as a new
    object, so the reference returned by [getMetadataReadOnly] changes. *)
Theorem keyspaceChanged_again_republishes E ks w s1 s2 lg ring g :
  serving w s1 s2 lg ring g →
  ∃ w1 w2 v,
    keyspaceChanged E ks w = Ret tt w1
    ∧ keyspaceChanged E ks w1 = Ret tt w2
    ∧ published w1 = Some v
    ∧ published w2 = Some v
    ∧ publishes w2 = S (S (publishes w))
    ∧ getMetadataReadOnly (mgr w1) = Some (length (structs w))
    ∧ getMetadataReadOnly (mgr w2) = Some (S (length (structs w))).
Proof.
  intros Hs.
  pose proof (run_updates_eq E (KeyspaceChanged ks) w s1 s2 lg ring g
                Hs eq_refl) as Hrun.
  cbn [run] in Hrun.
  match type of Hrun with _ = Ret _ ?x => set (w1 := x) in * end.
  assert (serving w1 s1 s2 lg ring (new_replicas E s1 ks ring g)) as Hs1.
  { by eapply serving_publish. }
  pose proof (run_updates_eq E (KeyspaceChanged ks) w1 s1 s2 lg ring _
                Hs1 eq_refl) as Hrun1.
  cbn [run] in Hrun1. eexists w1, _, _.
  split; [exact Hrun|]. split; [exact Hrun1|].
  split; [apply published_publish|].
  split.
  { rewrite published_publish. cbn. unfold working_ring. cbn.
    by rewrite new_replicas_again. }
  split; [done|]. split; [done|].
  cbn. by rewrite length_app, Nat.add_1_r.
Qed.

(** X10. [setPartitioner] publishes only when the partitioner changes:
    the first call with a new name publishes once, the same call again
    returns without changing anything. *)
Theorem setPartitioner_twice_publishes_once E E' p w s1 s2 lg ring g :
  serving w s1 s2 lg ring g →
  partitioner (mgr w) ≠ p →
  ∃ w1,
    setPartitioner E p w = Ret tt w1
    ∧ partitioner (mgr w1) = p
    ∧ publishes w1 = S (publishes w)
    ∧ setPartitioner E' p w1 = Ret tt w1.
Proof.
  intros Hs Hp.
  assert (updates (SetPartitioner p) (mgr w) = true) as Hu.
  { cbn. by apply bool_decide_eq_true. }
  pose proof (run_updates_eq E (SetPartitioner p) w s1 s2 lg ring g Hs Hu)
    as Hrun.
  cbn [run] in Hrun.
  match type of Hrun with _ = Ret _ ?x => set (w1 := x) in * end.
  exists w1. split; [done|]. split; [done|]. split; [done|].
  by apply setPartitioner_same_eq.
Qed.


Lemma known_removed a l :
  cowHostList.known a (cowHostList.remove a l).1 = false.
Proof.
  unfold cowHostList.remove.
  destruct (cowHostList.known a l) eqn:Hk; [|done]. cbn. clear Hk.
  induction l as [|h l IH]; cbn; [done|].
  destruct (String.eqb (ConnectAddress h) a) eqn:Heq; cbn; [done|].
  by rewrite Heq.
Qed.

(** X11. [removeHost] publishes only when the host list changes: for a
    host whose address is registered the call removes it and publishes
    once, with the ring rebuilt from the remaining hosts, and the same call
    again returns without changing anything; for an address that is not
    registered the call changes nothing.  (The host list is the registry
    the specification describes.) *)
Theorem removeHost_publishes_once E E' host w s1 s2 lg ring g :
  serving w s1 s2 lg ring g →
  (cowHostList.known (ConnectAddress host) (hosts (mgr w)) = false →
   removeHost E host w = Ret tt w)
  ∧ (cowHostList.known (ConnectAddress host) (hosts (mgr w)) = true →
     ∃ w1 g1,
       removeHost E host w = Ret tt w1
       ∧ cowHostList.known (ConnectAddress host) (hosts (mgr w1)) = false
       ∧ publishes w1 = S (publishes w)
       ∧ published w1
         = Some (ring_after E (partitioner (mgr w)) (hosts (mgr w1)) ring,
                 g1)
       ∧ removeHost E' host w1 = Ret tt w1).
Proof.
  intros Hs. split.
  - intros Hk. apply removeHost_unknown_eq; [apply Hs|done].
  - intros Hk.
    pose proof (run_updates_eq E (RemoveHost host) w s1 s2 lg ring g Hs Hk)
      as Hrun.
    cbn [run] in Hrun.
    match type of Hrun with _ = Ret _ ?x => set (w1 := x) in * end.
    assert (cowHostList.known (ConnectAddress host) (hosts (mgr w1)) = false)
      as Hk1 by apply known_removed.
    eexists w1, _. split; [done|]. split; [done|]. split; [done|].
    split; [apply published_publish|].
    by apply removeHost_unknown_eq.
Qed.

(** X12. A call that panics before [init] has already changed the host
    list.  [addHost] of a new host on a manager without collaborators
    panics with the host registered; after [init] the same [addHost] finds
    the host known and returns without publishing, so no snapshot exists
    for that host until another call publishes. *)
Theorem host_added_before_init_is_not_published E E' host s w :
  idle w →
  cowHostList.known (ConnectAddress host) (hosts (mgr w)) = false →
  ∃ p w1 w2,
    addHost E host w = Panic p w1
    ∧ hosts (mgr w1) = hosts (mgr w) ++ [host]
    ∧ init s w1 = Ret tt w2
    ∧ addHost E' host w2 = Ret tt w2
    ∧ getMetadataReadOnly (mgr w2) = getMetadataReadOnly (mgr w).
Proof.
  intros Hi Hk. destruct (idle_unbound_world w Hi) as [c Hub].
  pose proof Hub as [U1 U2 U3 U4 U5].
  pose proof (addHost_unbound_eq E host w c Hub Hk) as Hrun.
  cbv zeta in Hrun.
  match type of Hrun with _ = Panic _ ?x => set (w1 := x) in * end.
  assert (init s w1 = Ret tt (with_mgr (bind_session s) w1)) as Hinit.
  { by apply init_first_eq. }
  eexists _, w1, _. split; [exact Hrun|]. split; [done|].
  split; [exact Hinit|]. split; [|done].
  apply addHost_known_eq; [done|]. cbn. apply known_snoc.
Qed.

Lemma run_held E o w : mu (mgr w) = true → run E o w = Blocked.
Proof. intros H. destruct o; cbn; by apply locked_held. Qed.

(** A call that does not reach the publish leaves the slot as it was. *)
Lemma run_slot_unchanged E o w :
  inv w →
  uninitialized (mgr w) ∨ updates o (mgr w) = false →
  metadata (mgr (after (run E o w) w)) = metadata (mgr w).
Proof.
  intros Hinv Hno. pose proof Hinv as [Hwf Hb].
  destruct (updates o (mgr w)) eqn:Hu.
  - destruct Hno as [Hun|?]; [|done].
    destruct (run_unbound_eq E o w (inv_idle w Hinv Hun) Hu)
      as (w' & Hrun & Hmd & _).
    by rewrite Hrun.
  - destruct (is_Init o) eqn:Hi.
    + destruct o as [s| | | | |]; try done. cbn.
      destruct Hb as [Hun|Hin].
      * by rewrite init_first_eq by (apply Hwf || apply Hun).
      * by rewrite init_again_eq by (apply Hwf || apply Hin).
    + rewrite run_skips_eq; [done|apply Hwf|done|by intros s ->].
Qed.

Lemma exec_ringless t w :
  Forall (λ eo, ∀ p, eo.2 = SetPartitioner p → p = ""%string) t →
  inv w → ringless w → ringless (exec t w).
Proof.
  intros Ht. revert w.
  induction Ht as [|[E o] t Ho Ht IH]; intros w Hinv Hr; cbn; [done|].
  apply IH; [by apply run_inv|by apply run_ringless].
Qed.

Lemma ringless_published w ring g :
  ringless w → published w = Some (ring, g) → ring = None.
Proof.
  intros [_ Hnone]. unfold published, snapshot.
  destruct (getMetadataReadOnly _) as [p|]; [|done]. cbn.
  destruct (structs _ !! p) as [c|] eqn:Hc; [|done]. cbn.
  intros H. rewrite <- (Hnone c) by by eapply list_elem_of_lookup_2.
  destruct (match replicas c with Some r => _ | None => _ end); [|done].
  cbn in H. by injection H as -> _.
Qed.

(** C9 (as amended). What [getMetadataReadOnly] returns along any
    sequence of calls from the zero manager: nil at the start; unchanged
    by a call that does not reach the publish (a call before [init],
    [init] itself, a call whose guard finds nothing changed); after a call
    that reaches the publish on an initialised manager, the new snapshot
    object, whose ring is the one [resetTokenRing] left in the working
    copy, and this whether or not a partitioner is known or a host is
    registered.  As long as no non-empty partitioner has been set the
    published ring is nil.  The read does not consult the mutex: while it
    is held every mutating call blocks and the read returns what it
    returned before. *)
Theorem getMetadataReadOnly_follows_the_slot t E o :
  let w := exec t fresh0 in
  getMetadataReadOnly (mgr fresh0) = None
  ∧ (uninitialized (mgr w) ∨ updates o (mgr w) = false →
     getMetadataReadOnly (mgr (after (run E o w) w))
     = getMetadataReadOnly (mgr w))
  ∧ (initialized (mgr w) → updates o (mgr w) = true →
     ∃ w' ring g g',
       previous w = Some (ring, g)
       ∧ run E o w = Ret tt w'
       ∧ getMetadataReadOnly (mgr w') = Some (length (structs w))
       ∧ (length (structs w) ∉ metadata (mgr w))
       ∧ published w' = Some (working_ring E o w ring, g'))
  ∧ (Forall (λ eo, ∀ p, eo.2 = SetPartitioner p → p = ""%string)
       (t ++ [(E, o)]) →
     ∀ ring g, published (after (run E o w) w) = Some (ring, g) →
               ring = None)
  ∧ (∀ E' o',
       run E' o' (with_mgr (set_mu true) w) = Blocked
       ∧ getMetadataReadOnly (mgr (with_mgr (set_mu true) w))
         = getMetadataReadOnly (mgr w)).
Proof.
  intros w. destruct (exec_inv t fresh0 inv_fresh) as [Hinv _].
  fold w in Hinv. pose proof Hinv as [Hwf _].
  split; [done|]. split; [|split; [|split]].
  - intros Hno. unfold getMetadataReadOnly.
    by rewrite (run_slot_unchanged E o w Hinv Hno).
  - intros Hi Hu.
    destruct (inv_serving w Hinv Hi) as (s1 & s2 & lg & ring & g & Hs).
    rewrite (run_updates_eq E o w s1 s2 lg ring g Hs Hu).
    eexists _, ring, g, _. split; [apply Hs|]. split; [done|].
    split; [done|]. split; [|apply published_publish].
    intros Hin. pose proof (wf_published _ Hwf _ Hin). lia.
  - intros Hf ring g Hpub.
    assert (ringless (exec (t ++ [(E, o)]) fresh0)) as Hr.
    { apply exec_ringless; [done|apply inv_fresh|].
      split; [done|]. intros c. cbn. by rewrite elem_of_nil. }
    rewrite exec_app in Hr. cbn in Hr. fold w in Hr.
    by eapply ringless_published.
  - intros E' o'. split; [by apply run_held|done].
Qed.

End Proofs.

Import Example.


(** * The theorems at work on the concrete cluster *)

Lemma published_snapshot_is_immutable_witness :
  1 ∈ metadata (mgr wA)
  ∧ (is_Some (snapshot wA 1)
     ∧ snapshot (exec later wA) 1 = snapshot wA 1
     ∧ ∃ c meta w1',
         current wA = Some c
         ∧ getMetadataForUpdate wA = Ret meta w1'
         ∧ (meta ∉ metadata (mgr wA))
         ∧ structs w1' = structs wA ++ [c]
         ∧ maps w1' = maps wA
         ∧ snapshot w1' 1 = snapshot wA 1).
Proof.
  assert (1 ∈ metadata (mgr wA)) as H by (vm_compute; repeat constructor).
  split; [exact H|].
  exact (published_snapshot_is_immutable started later 1 H).
Defined.

Lemma keyspaceChanged_is_scoped_witness :
  serving wA sess sess lg (Some ringA) gA
  ∧ ∃ w' g',
      keyspaceChanged E1 "ks2" wA = Ret tt w'
      ∧ publishes w' = S (publishes wA)
      ∧ published w' = Some (Some ringA, g')
      ∧ (∀ ks2, ks2 ≠ "ks2"%string → g' !! ks2 = gA !! ks2)
      ∧ g' !! "ks2"%string = target_entry E1 sess "ks2" (Some ringA).
Proof.
  assert (serving wA sess sess lg (Some ringA) gA) as H
    by (split; reflexivity).
  split; [exact H|].
  exact (keyspaceChanged_is_scoped E1 "ks2" wA sess sess lg (Some ringA) gA H).
Defined.

Lemma unresolved_keyspace_is_omitted_witness :
  serving wA sess sess lg (Some ringA) gA
  ∧ updates (KeyspaceChanged "ks1") (mgr wA) = true
  ∧ ∃ w' g',
      run E2 (KeyspaceChanged "ks1") wA = Ret tt w'
      ∧ publishes w' = S (publishes wA)
      ∧ published w'
        = Some (working_ring E2 (KeyspaceChanged "ks1") wA (Some ringA), g')
      ∧ g' !! "ks1"%string = None
      ∧ (∀ ks, ks ≠ "ks1"%string → g' !! ks = gA !! ks).
Proof.
  assert (serving wA sess sess lg (Some ringA) gA) as H
    by (split; reflexivity).
  split; [exact H|]. split; [reflexivity|].
  apply (unresolved_keyspace_is_omitted E2 (KeyspaceChanged "ks1") wA
           sess sess lg (Some ringA) gA H eq_refl).
  left. eexists. reflexivity.
Defined.

Lemma degraded_errors_are_absorbed_witness :
  serving wA sess sess lg (Some ringA) gA
  ∧ updates (SetPartitioner "RandomPartitioner") (mgr wA) = true
  ∧ ∃ w' ring' g',
      run E2 (SetPartitioner "RandomPartitioner") wA = Ret tt w'
      ∧ publishes w' = S (publishes wA)
      ∧ published w' = Some (ring', g')
      ∧ hosts (mgr w') = hosts (mgr wA)
      ∧ partitioner (mgr w') = "RandomPartitioner"%string
      ∧ (∀ err, newTokenRing E2 (partitioner (mgr w')) (hosts (mgr w'))
                = inr err → ring' = Some ringA)
      ∧ (∀ err, Session_KeyspaceMetadata E2 sess "ks1" = inr err →
                g' !! "ks1"%string = None)
      ∧ g' !! "ks1"%string = target_entry E2 sess "ks1" ring'
      ∧ (∀ ks, ks ≠ "ks1"%string → g' !! ks = gA !! ks).
Proof.
  assert (serving wA sess sess lg (Some ringA) gA) as H
    by (split; reflexivity).
  split; [exact H|]. split; [reflexivity|].
  exact (degraded_errors_are_absorbed E2 (SetPartitioner "RandomPartitioner")
           wA sess sess lg (Some ringA) gA H eq_refl).
Defined.

Lemma addHost_twice_publishes_once_witness :
  serving wA sess sess lg (Some ringA) gA
  ∧ cowHostList.known (ConnectAddress h2) (hosts (mgr wA)) = false
  ∧ ∃ w1,
      addHost E1 h2 wA = Ret tt w1
      ∧ publishes w1 = S (publishes wA)
      ∧ addHost E2 h2 w1 = Ret tt w1
      ∧ getMetadataReadOnly (mgr (after (addHost E2 h2 w1) w1))
        = getMetadataReadOnly (mgr w1)
      ∧ publishes (after (addHost E2 h2 w1) w1) = S (publishes wA).
Proof.
  assert (serving wA sess sess lg (Some ringA) gA) as H
    by (split; reflexivity).
  split; [exact H|]. split; [reflexivity|].
  exact (addHost_twice_publishes_once E1 E2 h2 wA sess sess lg (Some ringA)
           gA H eq_refl).
Defined.

Lemma failed_ring_rebuild_keeps_ring_witness :
  serving wA sess sess lg (Some ringA) gA
  ∧ updates (SetPartitioner "RandomPartitioner") (mgr wA) = true
  ∧ resets_ring (SetPartitioner "RandomPartitioner") = true
  ∧ "RandomPartitioner"%string ≠ ""%string
  ∧ newTokenRing E1 "RandomPartitioner" (hosts (mgr wA))
    = inr "unsupported partitioner"%string
  ∧ ∃ w' g',
      run E1 (SetPartitioner "RandomPartitioner") wA = Ret tt w'
      ∧ printed w'
        = printed wA
          ++ (lg, "Unable to update the token ring due to error: unsupported partitioner"%string)
             :: ((lg,.) <$> strategy_log E1 sess "ks1")
      ∧ publishes w' = S (publishes wA)
      ∧ published w' = Some (Some ringA, g')
      ∧ g' !! "ks1"%string = target_entry E1 sess "ks1" (Some ringA)
      ∧ (∀ ks, ks ≠ "ks1"%string → g' !! ks = gA !! ks).
Proof.
  assert (serving wA sess sess lg (Some ringA) gA) as H
    by (split; reflexivity).
  assert ("RandomPartitioner"%string ≠ ""%string) as Hne by discriminate.
  split; [exact H|]. split; [reflexivity|]. split; [reflexivity|].
  split; [exact Hne|]. split; [reflexivity|].
  exact (failed_ring_rebuild_keeps_ring E1 (SetPartitioner "RandomPartitioner")
           wA sess sess lg (Some ringA) gA "unsupported partitioner"
           H eq_refl eq_refl Hne eq_refl).
Defined.

Lemma addHosts_always_publishes_witness :
  serving wA sess sess lg (Some ringA) gA
  ∧ ∃ w' ring' g',
      addHosts E1 [h1] wA = Ret tt w'
      ∧ hosts (mgr w') = add_all [h1] (hosts (mgr wA))
      ∧ ((∀ h, h ∈ [h1] →
               cowHostList.known (ConnectAddress h) (hosts (mgr wA)) = true) →
         hosts (mgr w') = hosts (mgr wA))
      ∧ publishes w' = S (publishes wA)
      ∧ getMetadataReadOnly (mgr w') = Some (length (structs wA))
      ∧ published w' = Some (ring', g')
      ∧ ring' = ring_after E1 (partitioner (mgr wA)) (hosts (mgr w'))
                  (Some ringA)
      ∧ (∀ r, partitioner (mgr wA) ≠ ""%string →
              newTokenRing E1 (partitioner (mgr wA)) (hosts (mgr w')) = inl r →
              ring' = Some r)
      ∧ g' !! Session_cfg_Keyspace E1 sess
        = target_entry E1 sess (Session_cfg_Keyspace E1 sess) ring'
      ∧ (∀ ks, ks ≠ Session_cfg_Keyspace E1 sess → g' !! ks = gA !! ks).
Proof.
  assert (serving wA sess sess lg (Some ringA) gA) as H
    by (split; reflexivity).
  split; [exact H|].
  exact (addHosts_always_publishes E1 [h1] wA sess sess lg (Some ringA) gA H).
Defined.

Lemma init_again_always_panics_witness :
  init sess (@exec Ring Replicas Schema [] fresh)
  = Ret tt (with_mgr (bind_session sess) fresh)
  ∧ init sess2 (exec later (with_mgr (bind_session sess) fresh))
    = Panic (PanicString initPanicMessage)
        (exec later (with_mgr (bind_session sess) fresh))
  ∧ bindings (mgr (exec later (with_mgr (bind_session sess) fresh)))
    = (Some sess, Some sess, Some (session_logger sess)).
Proof.
  assert (init sess (@exec Ring Replicas Schema [] fresh)
          = Ret tt (with_mgr (bind_session sess) fresh)) as H
    by reflexivity.
  split; [exact H|].
  exact (init_again_always_panics [] later sess sess2 _ H).
Defined.

Lemma calls_before_init_panic_witness :
  idle fresh
  ∧ updates (AddHost h1) (mgr fresh) = true
  ∧ ∃ p w',
      run E1 (AddHost h1) fresh = Panic p w'
      ∧ publishes w' = publishes fresh
      ∧ (resets_ring (AddHost h1) = false →
         p = NilFuncCall "getKeyspaceMetadata")
      ∧ (resets_ring (AddHost h1) = true →
         maps w' = maps fresh
         ∧ p = match newTokenRing E1 (partitioner (mgr w'))
                       (hosts (mgr w')) with
               | inr _ =>
                   if String.eqb (partitioner (mgr w')) ""
                   then NilFuncCall "getKeyspaceName"
                   else NilInterfaceCall "logger"
               | inl _ => NilFuncCall "getKeyspaceName"
               end).
Proof.
  assert (idle fresh) as H.
  { split; [repeat split; reflexivity|reflexivity|eexists; reflexivity]. }
  split; [exact H|]. split; [reflexivity|].
  exact (calls_before_init_panic E1 (AddHost h1) fresh H eq_refl).
Defined.

Lemma getMetadataReadOnly_follows_the_slot_witness :
  getMetadataReadOnly (mgr fresh) = None
  ∧ (uninitialized (mgr (exec unpartitioned fresh))
     ∨ updates (AddHost h2) (mgr (exec unpartitioned fresh)) = false →
     getMetadataReadOnly
       (mgr (after (run E1 (AddHost h2) (exec unpartitioned fresh))
               (exec unpartitioned fresh)))
     = getMetadataReadOnly (mgr (exec unpartitioned fresh)))
  ∧ (initialized (mgr (exec unpartitioned fresh)) →
     updates (AddHost h2) (mgr (exec unpartitioned fresh)) = true →
     ∃ w' ring g g',
       previous (exec unpartitioned fresh) = Some (ring, g)
       ∧ run E1 (AddHost h2) (exec unpartitioned fresh) = Ret tt w'
       ∧ getMetadataReadOnly (mgr w')
         = Some (length (structs (exec unpartitioned fresh)))
       ∧ (length (structs (exec unpartitioned fresh))
          ∉ metadata (mgr (exec unpartitioned fresh)))
       ∧ published w'
         = Some (working_ring E1 (AddHost h2) (exec unpartitioned fresh)
                   ring, g'))
  ∧ (Forall (λ eo, ∀ p, eo.2 = SetPartitioner p → p = ""%string)
       (unpartitioned ++ [(E1, AddHost h2)]) →
     ∀ ring g,
       published (after (run E1 (AddHost h2) (exec unpartitioned fresh))
                    (exec unpartitioned fresh)) = Some (ring, g) →
       ring = None)
  ∧ (∀ (E' : @Env Ring Replicas Schema) o',
       run E' o' (with_mgr (set_mu true) (exec unpartitioned fresh))
       = Blocked
       ∧ getMetadataReadOnly
           (mgr (with_mgr (set_mu true) (exec unpartitioned fresh)))
         = getMetadataReadOnly (mgr (exec unpartitioned fresh))).
Proof.
  exact (getMetadataReadOnly_follows_the_slot unpartitioned E1 (AddHost h2)).
Defined.

(** * Where the code departs from the specification *)

(** C4, as the specification states it, fails: the replica map of ks1 was
    computed, then the resolver fails for ks1, and the snapshot published
    by [keyspaceChanged] has no entry for ks1 any more. *)
Lemma failed_keyspace_loses_its_replicas :
  published wA = Some (Some ringA, gA)
  ∧ gA !! "ks1"%string = Some repA
  ∧ Session_KeyspaceMetadata E2 sess "ks1"
    = inr "keyspace does not exist"%string
  ∧ ∃ w', keyspaceChanged E2 "ks1" wA = Ret tt w'
          ∧ published w' = Some (Some ringA, ∅)
          ∧ (∅ : gmap string Replicas) !! "ks1"%string = None.
Proof.
  split; [reflexivity|]. split; [reflexivity|]. split; [reflexivity|].
  eexists. split; [reflexivity|]. split; reflexivity.
Qed.

(** C9, as the specification states it, fails: with the partitioner still
    unknown, and also with no host registered, a snapshot has been
    published and [getMetadataReadOnly] returns it. *)
Lemma snapshot_published_without_partitioner_or_hosts :
  (partitioner (mgr (exec [(E1, Init sess); (E1, AddHost h1)] fresh))
   = ""%string
   ∧ getMetadataReadOnly
       (mgr (exec [(E1, Init sess); (E1, AddHost h1)] fresh)) = Some 0)
  ∧ (hosts (mgr (exec [(E1, Init sess); (E1, KeyspaceChanged "ks1")] fresh))
     = []
     ∧ getMetadataReadOnly
         (mgr (exec [(E1, Init sess); (E1, KeyspaceChanged "ks1")] fresh))
       = Some 0).
Proof. repeat split; reflexivity. Qed.

(** With a partitioner set, an empty host list does not mean a nil ring:
    removing the last host makes [newTokenRing] fail, and the snapshot
    published by [removeHost] keeps the ring built for that host. *)
Lemma ring_outlives_the_last_host :
  hosts (mgr (exec emptied fresh)) = []
  ∧ ∃ g, published (exec emptied fresh) = Some (Some ringA, g).
Proof. split; [reflexivity|]. eexists. reflexivity. Qed.

(** C10, as the specification states it, fails: [addHost] before [init]
    panics on the nil keyspace name function, before [updateReplicas] is
    entered (no map object was made), not on the nil resolver. *)
Lemma addHost_before_init_panics_on_getKeyspaceName :
  run E1 (AddHost h1) fresh
  = Panic (NilFuncCall "getKeyspaceName")
      {| mgr := set_hosts [h1] (mgr fresh);
         structs := [zeroClusterMetadata]; maps := []; printed := [] |}
  ∧ NilFuncCall "getKeyspaceName" ≠ NilFuncCall "getKeyspaceMetadata".
Proof. split; [reflexivity|discriminate]. Qed.

(** * The further properties at work on the concrete cluster *)

Lemma initialised_manager_never_panics_witness :
  serving wA sess sess lg (Some ringA) gA
  ∧ Forall (λ eo, is_Init eo.2 = false) busy
  ∧ returns busy wA
  ∧ hosts (mgr (exec busy wA)) = hosts_after_all busy (hosts (mgr wA))
  ∧ partitioner (mgr (exec busy wA))
    = partitioner_after_all busy (partitioner (mgr wA))
  ∧ bindings (mgr (exec busy wA)) = bindings (mgr wA).
Proof.
  assert (serving wA sess sess lg (Some ringA) gA) as H
    by (split; reflexivity).
  assert (Forall (λ eo : @Env Ring Replicas Schema * op,
                    is_Init eo.2 = false) busy) as Hf
    by (repeat constructor).
  split; [exact H|]. split; [exact Hf|].
  exact (initialised_manager_never_panics busy wA sess sess lg (Some ringA)
           gA H Hf).
Defined.

Lemma nothing_is_published_before_init_witness :
  Forall (λ eo, is_Init eo.2 = false) early
  ∧ getMetadataReadOnly (mgr (exec early fresh)) = None
  ∧ uninitialized (mgr (exec early fresh))
  ∧ hosts (mgr (exec early fresh)) = hosts_after_all early cowHostList.empty
  ∧ partitioner (mgr (exec early fresh)) = partitioner_after_all early "".
Proof.
  assert (Forall (λ eo : @Env Ring Replicas Schema * op,
                    is_Init eo.2 = false) early) as Hf
    by (repeat constructor).
  split; [exact Hf|].
  exact (nothing_is_published_before_init early Hf).
Defined.

Lemma empty_partitioner_means_nil_ring_witness :
  Forall (λ eo, ∀ p, eo.2 = SetPartitioner p → p = ""%string) unpartitioned
  ∧ partitioner (mgr (exec unpartitioned fresh)) = ""%string
  ∧ (∀ c, c ∈ structs (exec unpartitioned fresh) → TokenRing_of c = None)
  ∧ (∀ ring g, published (exec unpartitioned fresh) = Some (ring, g) →
               ring = None).
Proof.
  assert (Forall (λ eo : @Env Ring Replicas Schema * op,
                    ∀ p, eo.2 = SetPartitioner p → p = ""%string)
            unpartitioned) as Hf.
  { repeat constructor; intros p Hp; discriminate Hp. }
  split; [exact Hf|].
  exact (empty_partitioner_means_nil_ring unpartitioned Hf).
Defined.

Lemma ring_and_replicas_follow_the_update_witness :
  serving wA sess sess lg (Some ringA) gA
  ∧ updates (AddHost h2) (mgr wA) = true
  ∧ resets_ring (AddHost h2) = true
  ∧ partitioner_after (AddHost h2) (partitioner (mgr wA)) ≠ ""%string
  ∧ newTokenRing E1 (partitioner_after (AddHost h2) (partitioner (mgr wA)))
      (hosts_after (AddHost h2) (hosts (mgr wA))) = inl ringB
  ∧ Session_KeyspaceMetadata E1 sess (Session_cfg_Keyspace E1 sess)
    = inl "SimpleStrategy"%string
  ∧ (getStrategy E1 "SimpleStrategy").1 = Some simple
  ∧ ∃ w' g',
      run E1 (AddHost h2) wA = Ret tt w'
      ∧ published w' = Some (Some ringB, g')
      ∧ g' !! Session_cfg_Keyspace E1 sess = Some (simple ringB)
      ∧ (∀ k, k ≠ Session_cfg_Keyspace E1 sess → g' !! k = gA !! k)
      ∧ printed w'
        = printed wA ++ ((lg,.) <$> (getStrategy E1 "SimpleStrategy").2).
Proof.
  assert (serving wA sess sess lg (Some ringA) gA) as H
    by (split; reflexivity).
  assert (partitioner_after (AddHost h2) (partitioner (mgr wA)) ≠ ""%string)
    as Hne by (vm_compute; discriminate).
  split; [exact H|]. split; [reflexivity|]. split; [reflexivity|].
  split; [exact Hne|]. split; [reflexivity|]. split; [reflexivity|].
  split; [reflexivity|].
  exact (ring_and_replicas_follow_the_update E1 (AddHost h2) wA sess sess lg
           (Some ringA) gA ringB "SimpleStrategy" simple
           H eq_refl eq_refl Hne eq_refl eq_refl eq_refl).
Defined.

Lemma no_replicas_without_a_ring_witness :
  serving wB sess sess lg None ∅
  ∧ updates (KeyspaceChanged "ks1") (mgr wB) = true
  ∧ working_ring E1 (KeyspaceChanged "ks1") wB None = None
  ∧ ∃ w' g',
      run E1 (KeyspaceChanged "ks1") wB = Ret tt w'
      ∧ published w' = Some (None, g')
      ∧ g' !! target_keyspace E1 (KeyspaceChanged "ks1") sess = None
      ∧ (∀ k, k ≠ target_keyspace E1 (KeyspaceChanged "ks1") sess →
              g' !! k = (∅ : gmap string Replicas) !! k).
Proof.
  assert (serving wB sess sess lg None ∅) as H by (split; reflexivity).
  split; [exact H|]. split; [reflexivity|]. split; [reflexivity|].
  exact (no_replicas_without_a_ring E1 (KeyspaceChanged "ks1") wB sess sess
           lg None ∅ H eq_refl eq_refl).
Defined.

Lemma empty_partitioner_keeps_the_ring_witness :
  serving wA sess sess lg (Some ringA) gA
  ∧ partitioner (mgr wA) ≠ ""%string
  ∧ ∃ w' g',
      setPartitioner E1 "" wA = Ret tt w'
      ∧ partitioner (mgr w') = ""%string
      ∧ publishes w' = S (publishes wA)
      ∧ published w' = Some (Some ringA, g')
      ∧ g' !! Session_cfg_Keyspace E1 sess
        = target_entry E1 sess (Session_cfg_Keyspace E1 sess) (Some ringA)
      ∧ printed w'
        = printed wA
          ++ ((lg,.) <$> strategy_log E1 sess (Session_cfg_Keyspace E1 sess)).
Proof.
  assert (serving wA sess sess lg (Some ringA) gA) as H
    by (split; reflexivity).
  assert (partitioner (mgr wA) ≠ ""%string) as Hne
    by (vm_compute; discriminate).
  split; [exact H|]. split; [exact Hne|].
  exact (empty_partitioner_keeps_the_ring E1 wA sess sess lg (Some ringA) gA
           H Hne).
Defined.

Lemma range_order_is_irrelevant_witness :
  NoDup [("ks1"%string, repA); ("ks2"%string, repA)].*1
  ∧ [("ks1"%string, repA); ("ks2"%string, repA)]
    ≡ₚ [("ks2"%string, repA); ("ks1"%string, repA)]
  ∧ maps wA !! 0 = Some ∅
  ∧ range_over [("ks1"%string, repA); ("ks2"%string, repA)]
      (λ ks replicas,
         if bool_decide (ks ≠ "ks2"%string) then map_assign 0 ks replicas
         else ret tt) wA
    = range_over [("ks2"%string, repA); ("ks1"%string, repA)]
        (λ ks replicas,
           if bool_decide (ks ≠ "ks2"%string) then map_assign 0 ks replicas
           else ret tt) wA.
Proof.
  assert (NoDup [("ks1"%string, repA); ("ks2"%string, repA)].*1) as Hnd.
  { cbn. repeat constructor; rewrite ?elem_of_cons, ?elem_of_nil;
      intros H; repeat destruct H as [H|H]; discriminate || done. }
  assert ([("ks1"%string, repA); ("ks2"%string, repA)]
          ≡ₚ [("ks2"%string, repA); ("ks1"%string, repA)]) as Hperm
    by apply perm_swap.
  split; [exact Hnd|]. split; [exact Hperm|]. split; [reflexivity|].
  exact (range_order_is_irrelevant "ks2" 0 _ _ ∅ wA Hnd Hperm eq_refl).
Defined.

Lemma keyspaceChanged_again_republishes_witness :
  serving wA sess sess lg (Some ringA) gA
  ∧ ∃ w1 w2 v,
      keyspaceChanged E1 "ks2" wA = Ret tt w1
      ∧ keyspaceChanged E1 "ks2" w1 = Ret tt w2
      ∧ published w1 = Some v
      ∧ published w2 = Some v
      ∧ publishes w2 = S (S (publishes wA))
      ∧ getMetadataReadOnly (mgr w1) = Some (length (structs wA))
      ∧ getMetadataReadOnly (mgr w2) = Some (S (length (structs wA))).
Proof.
  assert (serving wA sess sess lg (Some ringA) gA) as H
    by (split; reflexivity).
  split; [exact H|].
  exact (keyspaceChanged_again_republishes E1 "ks2" wA sess sess lg
           (Some ringA) gA H).
Defined.

Lemma setPartitioner_twice_publishes_once_witness :
  serving wA sess sess lg (Some ringA) gA
  ∧ partitioner (mgr wA) ≠ "RandomPartitioner"%string
  ∧ ∃ w1,
      setPartitioner E1 "RandomPartitioner" wA = Ret tt w1
      ∧ partitioner (mgr w1) = "RandomPartitioner"%string
      ∧ publishes w1 = S (publishes wA)
      ∧ setPartitioner E2 "RandomPartitioner" w1 = Ret tt w1.
Proof.
  assert (serving wA sess sess lg (Some ringA) gA) as H
    by (split; reflexivity).
  assert (partitioner (mgr wA) ≠ "RandomPartitioner"%string) as Hne
    by (vm_compute; discriminate).
  split; [exact H|]. split; [exact Hne|].
  exact (setPartitioner_twice_publishes_once E1 E2 "RandomPartitioner" wA
           sess sess lg (Some ringA) gA H Hne).
Defined.

Lemma removeHost_publishes_once_witness :
  serving wA sess sess lg (Some ringA) gA
  ∧ (cowHostList.known (ConnectAddress h1) (hosts (mgr wA)) = false →
     removeHost E1 h1 wA = Ret tt wA)
  ∧ (cowHostList.known (ConnectAddress h1) (hosts (mgr wA)) = true →
     ∃ w1 g1,
       removeHost E1 h1 wA = Ret tt w1
       ∧ cowHostList.known (ConnectAddress h1) (hosts (mgr w1)) = false
       ∧ publishes w1 = S (publishes wA)
       ∧ published w1
         = Some (ring_after E1 (partitioner (mgr wA)) (hosts (mgr w1))
                   (Some ringA), g1)
       ∧ removeHost E2 h1 w1 = Ret tt w1).
Proof.
  assert (serving wA sess sess lg (Some ringA) gA) as H
    by (split; reflexivity).
  split; [exact H|].
  exact (removeHost_publishes_once E1 E2 h1 wA sess sess lg (Some ringA)
           gA H).
Defined.

Lemma host_added_before_init_is_not_published_witness :
  idle fresh
  ∧ cowHostList.known (ConnectAddress h1) (hosts (mgr fresh)) = false
  ∧ ∃ p w1 w2,
      addHost E1 h1 fresh = Panic p w1
      ∧ hosts (mgr w1) = hosts (mgr fresh) ++ [h1]
      ∧ init sess w1 = Ret tt w2
      ∧ addHost E2 h1 w2 = Ret tt w2
      ∧ getMetadataReadOnly (mgr w2) = getMetadataReadOnly (mgr fresh).
Proof.
  assert (idle fresh) as H.
  { split; [repeat split; reflexivity|reflexivity|eexists; reflexivity]. }
  split; [exact H|]. split; [reflexivity|].
  exact (host_added_before_init_is_not_published E1 E2 h1 sess fresh H
           eq_refl).
Defined.
